(** * The job lifecycle engine of differential: admission, dispatch, status
      long-poll and the worker polling agent.

    The control plane keeps its jobs in one Postgres table (data.ts).  The
    table is embedded as the list of its rows in scan order; every database
    statement of the source becomes a function from the table before the
    statement to the table after it.  Wall-clock reads ([Date.now()],
    [new Date()]), the id generator [ulid()] and the answers of the network
    are inputs of the functions that use them. *)

From Stdlib Require Import ZArith List Ascii String Bool Sorted Permutation Lia.
Import ListNotations.
Open Scope string_scope.
Open Scope list_scope.
Open Scope Z_scope.

(** ** The two JavaScript operators the sources lean on *)

Module JS.

(** [a ?? b]. *)
Definition nullish {A} (a : option A) (b : A) : A :=
  match a with Some x => x | None => b end.

(** [o?.f] for an optional [o] and an optional field [f]. *)
Definition chain {A B} (o : option A) (f : A -> option B) : option B :=
  match o with Some x => f x | None => None end.

End JS.

Import JS.

(** ** data.ts: the [jobs] table *)

Module Data.

(** [status] column: enum ["pending", "running", "success", "failure"]. *)
Inductive Status := pending | running | success | failure.

(** [result_type] column: enum ["resolution", "rejection"]. *)
Inductive ResultType := resolution | rejection.

Definition Status_eqb (a b : Status) : bool :=
  match a, b with
  | pending, pending | running, running
  | success, success | failure, failure => true
  | _, _ => false
  end.

Definition ResultType_eqb (a b : ResultType) : bool :=
  match a, b with
  | resolution, resolution | rejection, rejection => true
  | _, _ => false
  end.

(** One row of [jobs].  Nullable columns are options, timestamps are
    milliseconds since the epoch, [integer] columns are taken to hold
    values inside their declared width. *)
Record Job := mkJob {
  id : string;
  owner_hash : string;
  deployment_id : option string;
  target_fn : string;
  target_args : string;
  idempotency_key : string;
  cache_key : option string;
  status : Status;
  result : option string;
  result_type : option ResultType;
  executing_machine_id : option string;
  remaining_attempts : Z;
  created_at : Z;
  updated_at : Z;
  resulted_at : option Z;
  last_retrieved_at : option Z;
  function_execution_time_ms : option Z;
  timeout_interval_seconds : option Z;
  service : string;
  predicted_to_be_retryable : option bool;
  predicted_to_be_retryable_reason : option string;
  predictive_retry_count : option Z
}.

Definition Table := list Job.

(** [x = ANY (ids)] on a text column. *)
Definition mem (x : string) (ids : list string) : bool :=
  existsb (String.eqb x) ids.

(** The two constraints of the table: [id] is [unique()], and the primary
    key is [(owner_hash, target_fn, idempotency_key)]. *)
Definition id_taken (x : string) (db : Table) : bool :=
  existsb (fun j => String.eqb (id j) x) db.

Definition pk_taken (owner fn key : string) (db : Table) : bool :=
  existsb (fun j => String.eqb (owner_hash j) owner
                    && String.eqb (target_fn j) fn
                    && String.eqb (idempotency_key j) key) db.

(** The object handed to [db.insert(jobs).values(...)] by the admission
    strategies.  [idempotency_key] is not among the keys they pass. *)
Record JobValues := {
  v_id : string;
  v_target_fn : string;
  v_target_args : string;
  v_status : Status;
  v_owner_hash : string;
  v_deployment_id : option string;
  v_service : string;
  v_cache_key : option string;
  v_remaining_attempts : Z;
  v_timeout_interval_seconds : option Z
}.

(** The row the store builds from the values: omitted columns take their
    column default ([defaultNow()] for the two timestamps, [default(0)]
    for [predictive_retry_count], NULL where nullable).  [key] is what
    the store puts in the omitted [idempotency_key] column. *)
Definition row_of_values (db_now : Z) (key : string) (v : JobValues) : Job :=
  {| id := v_id v;
     owner_hash := v_owner_hash v;
     deployment_id := v_deployment_id v;
     target_fn := v_target_fn v;
     target_args := v_target_args v;
     idempotency_key := key;
     cache_key := v_cache_key v;
     status := v_status v;
     result := None;
     result_type := None;
     executing_machine_id := None;
     remaining_attempts := v_remaining_attempts v;
     created_at := db_now;
     updated_at := db_now;
     resulted_at := None;
     last_retrieved_at := None;
     function_execution_time_ms := None;
     timeout_interval_seconds := v_timeout_interval_seconds v;
     service := v_service v;
     predicted_to_be_retryable := None;
     predicted_to_be_retryable_reason := None;
     predictive_retry_count := Some 0 |}.

(** [INSERT INTO jobs ... VALUES (...)] with no ON CONFLICT clause.  The
    statement fails ([None]) when [idempotency_key] stays NULL (the column
    is [notNull()]; [key_default = None] is a store without a default for
    it), when the id is taken, or when the primary key is taken.  The
    schema of data.ts declares no default for the column; the migrations
    that could add one are not part of the sources, so it is an input. *)
Definition insert_job (db_now : Z) (key_default : option string)
    (v : JobValues) (db : Table) : option Table :=
  match key_default with
  | None => None
  | Some key =>
      if id_taken (v_id v) db then None
      else if pk_taken (v_owner_hash v) (v_target_fn v) key db then None
      else Some (db ++ [row_of_values db_now key v])
  end.

End Data.

Import Data.

(** ** The jobs module (src/unnamed/part_001): [nextJobs] *)

Module Jobs.

Record NextJobsParams := {
  nj_service : string;
  nj_clusterId : string;          (* owner.clusterId *)
  nj_limit : Z;
  nj_machineId : string;
  nj_deploymentId : option string;
  nj_ip : string
}.

(** A row of [RETURNING id, target_fn, target_args], renamed by the
    [results.rows.map]. *)
Record NextJob := {
  job_id : string;
  targetFn : string;
  targetArgs : string
}.

(** The WHERE clause of the inner SELECT:
    [(status = 'pending' OR (status = 'failure' AND remaining_attempts > 0))
     AND owner_hash = clusterId AND service = service]. *)
Definition selectable (p : NextJobsParams) (j : Job) : bool :=
  (Status_eqb (status j) pending
   || (Status_eqb (status j) failure && (0 <? remaining_attempts j)))
  && String.eqb (owner_hash j) (nj_clusterId p)
  && String.eqb (service j) (nj_service p).

(** [SELECT id FROM jobs WHERE ... LIMIT limit]: no ORDER BY, the rows come
    in scan order. *)
Definition selected_ids (p : NextJobsParams) (db : Table) : list string :=
  firstn (Z.to_nat (nj_limit p)) (map id (filter (selectable p) db)).

(** The SET list of the UPDATE. *)
Definition claim (now : Z) (machineId : string) (j : Job) : Job :=
  {| id := id j;
     owner_hash := owner_hash j;
     deployment_id := deployment_id j;
     target_fn := target_fn j;
     target_args := target_args j;
     idempotency_key := idempotency_key j;
     cache_key := cache_key j;
     status := running;
     result := result j;
     result_type := result_type j;
     executing_machine_id := Some machineId;
     remaining_attempts := remaining_attempts j - 1;
     created_at := created_at j;
     updated_at := updated_at j;
     resulted_at := resulted_at j;
     last_retrieved_at := Some now;
     function_execution_time_ms := function_execution_time_ms j;
     timeout_interval_seconds := timeout_interval_seconds j;
     service := service j;
     predicted_to_be_retryable := predicted_to_be_retryable j;
     predicted_to_be_retryable_reason := predicted_to_be_retryable_reason j;
     predictive_retry_count := predictive_retry_count j |}.

(** [UPDATE jobs SET ... WHERE id IN (ids)]: every row whose id is listed
    is rewritten in place, the others are kept. *)
Definition update_claimed (now : Z) (machineId : string)
    (ids : list string) (db : Table) : Table :=
  map (fun j => if mem (id j) ids then claim now machineId j else j) db.

(** [RETURNING id, target_fn, target_args], read off the rewritten rows. *)
Definition returning (ids : list string) (db : Table) : list NextJob :=
  map (fun j => {| job_id := id j;
                   targetFn := target_fn j;
                   targetArgs := target_args j |})
      (filter (fun j => mem (id j) ids) db).

(** [nextJobs]: the single UPDATE statement, then the projection of the
    returned rows.  Postgres refuses a negative LIMIT, the statement then
    fails and [nextJobs] rejects ([None]).  [storeMachineInfo],
    [storeServiceDefinition] and [events.write] touch other tables only. *)
Definition nextJobs (now : Z) (p : NextJobsParams) (db : Table)
    : option (Table * list NextJob) :=
  if nj_limit p <? 0 then None
  else
    let ids := selected_ids p db in
    let db' := update_claimed now (nj_machineId p) ids db in
    Some (db', returning ids db').

(** *** [getJobStatuses] *)

(** The columns read by the long-poll. *)
Record JobStatus := {
  js_id : string;
  js_service : string;
  js_status : Status;
  js_result : option string;
  js_resultType : option ResultType
}.

(** [select({...}).from(jobs).where(and(eq(owner_hash, clusterId),
    inArray(id, jobIds)))]. *)
Definition select_statuses (clusterId : string) (jobIds : list string)
    (db : Table) : list JobStatus :=
  map (fun j => {| js_id := id j;
                   js_service := service j;
                   js_status := status j;
                   js_result := result j;
                   js_resultType := result_type j |})
      (filter (fun j => String.eqb (owner_hash j) clusterId
                        && mem (id j) jobIds) db).

(** [jobs.some(job => job.status === "success" || job.status === "failure")]. *)
Definition hasResolved (jobs : list JobStatus) : bool :=
  existsb (fun job => Status_eqb (js_status job) success
                      || Status_eqb (js_status job) failure) jobs.

(** What the loop sees of the outside: the table as it stands at its n-th
    read, and the clock.  [clock 0] is the [Date.now()] that sets [start];
    [clock (S n)] is the [Date.now()] of the loop condition after the
    sleep of round [n]. *)
Record World := {
  db_at : nat -> Table;
  clock : nat -> Z
}.

(** What the loop does to the outside. *)
Inductive Action :=
| DbRead (n : nat)
| Sleep (ms : Z).

(** The [do { ... } while (!hasResolved && Date.now() - start < longPollTimeout)]
    loop, entered at round [n].  [None]: the rounds allowed by [fuel] were
    not enough. *)
Fixpoint poll_statuses (fuel : nat) (w : World) (clusterId : string)
    (jobIds : list string) (longPollTimeout : Z) (n : nat)
    : option (list JobStatus * list Action) :=
  match fuel with
  | O => None
  | S fuel' =>
      let jobs := select_statuses clusterId jobIds (db_at w n) in
      if hasResolved jobs then Some (jobs, [DbRead n])
      else if clock w (S n) - clock w 0 <? longPollTimeout then
        match poll_statuses fuel' w clusterId jobIds longPollTimeout (S n) with
        | Some (r, acts) => Some (r, DbRead n :: Sleep 500 :: acts)
        | None => None
        end
      else Some (jobs, [DbRead n; Sleep 500])
  end.

(** [getJobStatuses({ jobIds, owner, longPollTimeout = 20000 })].  The
    [jobStatusRequest] events go to the event sink. *)
Definition getJobStatuses (fuel : nat) (w : World) (jobIds : list string)
    (clusterId : string) (longPollTimeout : option Z)
    : option (list JobStatus * list Action) :=
  match jobIds with
  | [] => Some ([], [])
  | _ :: _ =>
      poll_statuses fuel w clusterId jobIds (nullish longPollTimeout 20000) 0
  end.

End Jobs.

Import Jobs.

(** ** create-job (src/unnamed/part_000): admission *)

Module CreateJob.

Record Cache := {
  key : string;
  ttlSeconds : Z
}.

Record CallConfig := {
  cache : option Cache;
  retryCountOnStall : option Z;
  predictiveRetriesOnRejection : option bool;
  timeoutSeconds : option Z;
  executionId : option string
}.

(** The argument of [createJob]. *)
Record Params := {
  p_service : string;
  p_targetFn : string;
  p_targetArgs : string;
  p_clusterId : string;           (* owner.clusterId *)
  p_deploymentId : option string;
  p_callConfig : option CallConfig
}.

(** The argument shared by the two strategies: [CreateJobParams] and the
    spread [callConfigParams].  The spread carries [id], the caller's
    [executionId]; neither strategy reads it. *)
Record CreateJobParams := {
  s_service : string;
  s_targetFn : string;
  s_targetArgs : string;
  s_clusterId : string;
  s_deploymentId : option string;
  s_timeoutIntervalSeconds : option Z;
  s_maxAttempts : option Z;
  s_predictiveRetriesEnabled : option bool;
  s_id : option string
}.

(** What one admission reads from outside: [Date.now()], the database
    clock, the value of [ulid()], the value the store gives the omitted
    [idempotency_key] column, and whether
    [clusters.operationalCluster] resolved. *)
Record Env := {
  now : Z;
  db_now : Z;
  ulid : string;
  idempotency_key_default : option string;
  operational : bool
}.

Definition DEFAULT_RETRY_COUNT_ON_STALL : Z := 1.

(** The conjuncts of the [and(...)] of the cache probe.  A comparison with
    a NULL column is not true. *)
Definition cache_probe (cacheKey : string) (c : CreateJobParams)
    (threshold : Z) (j : Job) : bool :=
  match cache_key j with Some k => String.eqb k cacheKey | None => false end
  && String.eqb (owner_hash j) (s_clusterId c)
  && String.eqb (service j) (s_service c)
  && String.eqb (target_fn j) (s_targetFn c)
  && Status_eqb (status j) success
  && match result_type j with
     | Some t => ResultType_eqb t resolution
     | None => false
     end
  && match resulted_at j with Some t => threshold <=? t | None => false end.

(** [a] sorts strictly before [b] under [ORDER BY resulted_at DESC]
    (NULLs first). *)
Definition newer (a b : option Z) : bool :=
  match a, b with
  | None, None => false
  | None, Some _ => true
  | Some _, None => false
  | Some x, Some y => y <? x
  end.

Fixpoint insert_desc (j : Job) (l : list Job) : list Job :=
  match l with
  | [] => [j]
  | k :: l' =>
      if newer (resulted_at k) (resulted_at j)
      then k :: insert_desc j l'
      else j :: l
  end.

(** [.orderBy(desc(jobs.resulted_at))]: rows with equal [resulted_at] keep
    their scan order, no second sort key is given. *)
Definition orderBy_desc_resulted_at (l : list Job) : list Job :=
  fold_right insert_desc [] l.

(** [select({id}).from(jobs).where(and(...)).orderBy(...).limit(1)]. *)
Definition cache_lookup (cacheKey : string) (c : CreateJobParams)
    (threshold : Z) (db : Table) : list string :=
  map id
    (firstn 1 (orderBy_desc_resulted_at
                 (filter (cache_probe cacheKey c threshold) db))).

Definition cached (e : Env) (c : CreateJobParams)
    (cacheKey : string) (cacheTTLSeconds : Z) (db : Table)
    : option (Table * string) :=
  match cache_lookup cacheKey c (now e - cacheTTLSeconds * 1000) db with
  | job :: _ => Some (db, job)
  | [] =>
      let jobId := ulid e in
      match insert_job (db_now e) (idempotency_key_default e)
              {| v_id := jobId;
                 v_target_fn := s_targetFn c;
                 v_target_args := s_targetArgs c;
                 v_status := pending;
                 v_owner_hash := s_clusterId c;
                 v_deployment_id := s_deploymentId c;
                 v_service := s_service c;
                 v_cache_key := Some cacheKey;
                 v_remaining_attempts := nullish (s_maxAttempts c) 1;
                 v_timeout_interval_seconds := s_timeoutIntervalSeconds c |}
              db with
      | Some db' => Some (db', jobId)
      | None => None
      end
  end.

Definition default (e : Env) (c : CreateJobParams) (db : Table)
    : option (Table * string) :=
  let jobId := ulid e in
  match insert_job (db_now e) (idempotency_key_default e)
          {| v_id := jobId;
             v_target_fn := s_targetFn c;
             v_target_args := s_targetArgs c;
             v_status := pending;
             v_owner_hash := s_clusterId c;
             v_deployment_id := s_deploymentId c;
             v_service := s_service c;
             v_cache_key := None;
             v_remaining_attempts := nullish (s_maxAttempts c) 1;
             v_timeout_interval_seconds := s_timeoutIntervalSeconds c |}
          db with
  | Some db' => Some (db', jobId)
  | None => None
  end.

(** The strategy argument [{...params, ...callConfigParams}]. *)
Definition strategy_params (p : Params) : CreateJobParams :=
  {| s_service := p_service p;
     s_targetFn := p_targetFn p;
     s_targetArgs := p_targetArgs p;
     s_clusterId := p_clusterId p;
     s_deploymentId := p_deploymentId p;
     s_timeoutIntervalSeconds := chain (p_callConfig p) timeoutSeconds;
     s_maxAttempts :=
       Some (nullish (chain (p_callConfig p) retryCountOnStall)
                     DEFAULT_RETRY_COUNT_ON_STALL + 1);
     s_predictiveRetriesEnabled :=
       chain (p_callConfig p) predictiveRetriesOnRejection;
     s_id := chain (p_callConfig p) executionId |}.

(** [callConfig?.cache?.key && callConfig?.cache?.ttlSeconds]: the cache
    is used when the key is a non-empty string and the ttl is not 0. *)
Definition cache_requested (p : Params) : option Cache :=
  match chain (p_callConfig p) cache with
  | Some c =>
      if negb (String.eqb (key c) "") && negb (ttlSeconds c =? 0)
      then Some c else None
  | None => None
  end.

(** [createJob]: [None] when the admission rejects (the cluster is not
    operational, or the insert fails).  The [jobCreated] event goes to the
    event sink and does not touch the table. *)
Definition createJob (e : Env) (p : Params) (db : Table)
    : option (Table * string) :=
  if operational e then
    match cache_requested p with
    | Some c => cached e (strategy_params p) (key c) (ttlSeconds c) db
    | None => default e (strategy_params p) db
    end
  else None.

End CreateJob.

Import CreateJob.

(** ** The client contract (src/unnamed/part_001): the [ttl] field *)

Module Contract.

(** What [Number(input)] makes of a supplied value. *)
Inductive Coerced :=
| Num (n : Z)
| NaN.

Inductive ZodIssue := invalid_type | too_small | too_big.

(** [z.coerce.number().min(5000).max(20000).default(20000)]: [min] and
    [max] are inclusive checks that raise an issue; an absent input takes
    the default. *)
Definition ttl (input : option Coerced) : ZodIssue + Z :=
  match input with
  | None => inr 20000
  | Some NaN => inl invalid_type
  | Some (Num n) =>
      if n <? 5000 then inl too_small
      else if 20000 <? n then inl too_big
      else inr n
  end.

End Contract.

(** ** Differential.ts: the client constructor and the polling agent *)

Module Differential.

(** The [jobPollWaitTime] part of the constructor: [None] when it throws,
    otherwise the value kept in [this.jobPollWaitTime]. *)
Definition constructor_jobPollWaitTime (option_jobPollWaitTime : option Z)
    : option (option Z) :=
  let jobPollWaitTime :=
    match option_jobPollWaitTime with
    | Some n => if n =? 0 then 20000 else n     (* n || 20000 *)
    | None => 20000
    end in
  if jobPollWaitTime <? 5000 then None
  else Some option_jobPollWaitTime.

Record PollingAgent := {
  errorCount : nat;
  idleCycleCount : nat;
  aborted : bool;                 (* abortController.signal.aborted *)
  pollingAborted : bool;
  current : Z;                    (* pollState.current *)
  concurrency : Z;                (* pollState.concurrency *)
  maxIdleCycles : option nat
}.

(** [new PollingAgent(options)]. *)
Definition new_agent (maxIdle : option nat) : PollingAgent :=
  {| errorCount := 0; idleCycleCount := 0; aborted := false;
     pollingAborted := false; current := 0; concurrency := 100;
     maxIdleCycles := maxIdle |}.

Definition set_errorCount (n : nat) (a : PollingAgent) : PollingAgent :=
  {| errorCount := n; idleCycleCount := idleCycleCount a;
     aborted := aborted a; pollingAborted := pollingAborted a;
     current := current a; concurrency := concurrency a;
     maxIdleCycles := maxIdleCycles a |}.

Definition set_idleCycleCount (n : nat) (a : PollingAgent) : PollingAgent :=
  {| errorCount := errorCount a; idleCycleCount := n;
     aborted := aborted a; pollingAborted := pollingAborted a;
     current := current a; concurrency := concurrency a;
     maxIdleCycles := maxIdleCycles a |}.

Definition set_current (c : Z) (a : PollingAgent) : PollingAgent :=
  {| errorCount := errorCount a; idleCycleCount := idleCycleCount a;
     aborted := aborted a; pollingAborted := pollingAborted a;
     current := c; concurrency := concurrency a;
     maxIdleCycles := maxIdleCycles a |}.

Definition set_pollingAborted (a : PollingAgent) : PollingAgent :=
  {| errorCount := errorCount a; idleCycleCount := idleCycleCount a;
     aborted := aborted a; pollingAborted := true;
     current := current a; concurrency := concurrency a;
     maxIdleCycles := maxIdleCycles a |}.

(** [quit()] up to its first suspension: [abortController.abort()].  The
    rest of [quit] waits for the task queue and for [pollingAborted]. *)
Definition quit (a : PollingAgent) : PollingAgent :=
  {| errorCount := errorCount a; idleCycleCount := idleCycleCount a;
     aborted := true; pollingAborted := pollingAborted a;
     current := current a; concurrency := concurrency a;
     maxIdleCycles := maxIdleCycles a |}.

(** The settled [createJobsRequest]: the promise rejected (the [catch]
    turns it into status [-1]), or an HTTP status with, for a 200, the
    number of jobs in the body. *)
Inductive PollResult :=
| Rejected
| Http (status : Z) (jobs : nat).

Definition status_of (r : PollResult) : Z :=
  match r with Rejected => -1 | Http s _ => s end.

Inductive Outcome :=
| Returned (jobCount : nat) (ok : bool)
| Threw_UNAUTHORISED.

(** [pollForNextJob].  No request is made when the concurrency is used
    up. *)
Definition pollForNextJob (a : PollingAgent) (r : PollResult)
    : PollingAgent * Outcome :=
  if concurrency a <=? current a then (a, Returned 0 true)
  else if status_of r =? 400 then (a, Returned 0 false)
  else if status_of r =? 200 then
    match r with
    | Http _ n => (set_current (current a + Z.of_nat n) a, Returned n true)
    | Rejected => (a, Returned 0 false)
    end
  else if status_of r =? 401 then (a, Threw_UNAUTHORISED)
  else (a, Returned 0 false).

(** One turn of the loop as the outside shapes it: the tasks that finished
    since the last turn (each runs [pollState.current -= 1]) and the
    answer a request gets. *)
Record Tick := {
  completed : nat;
  answer : PollResult
}.

(** The bookkeeping of [poll] after [pollForNextJob] returned. *)
Definition account (a : PollingAgent) (jobCount : nat) (ok : bool)
    : PollingAgent :=
  let a1 :=
    if ok then
      let a0 := set_errorCount 0 a in
      if (0 <? jobCount)%nat then set_idleCycleCount 0 a0
      else set_idleCycleCount (S (idleCycleCount a0)) a0
    else set_errorCount (errorCount a + 1) a in
  let a2 := if (10 <? errorCount a1)%nat then quit a1 else a1 in
  match maxIdleCycles a2 with
  | Some m =>
      if negb (m =? 0)%nat && (m <=? idleCycleCount a2)%nat
      then quit a2 else a2
  | None => a2
  end.

(** How a run of the agent stands once the given turns are used up. *)
Inductive Run :=
| Polling (a : PollingAgent)        (* would poll again *)
| Stopped (a : PollingAgent)        (* [poll] saw the abort and returned *)
| Unauthorised (a : PollingAgent).  (* [poll] rejected with UNAUTHORISED *)

(** [poll], which ends by calling itself. *)
Fixpoint poll (a : PollingAgent) (ticks : list Tick) : Run :=
  if aborted a then Stopped (set_pollingAborted a)
  else
    match ticks with
    | [] => Polling a
    | t :: ticks' =>
        let a0 := set_current (current a - Z.of_nat (completed t)) a in
        match pollForNextJob a0 (answer t) with
        | (a1, Threw_UNAUTHORISED) => Unauthorised a1
        | (a1, Returned jobCount ok) => poll (account a1 jobCount ok) ticks'
        end
    end.

End Differential.

Import Contract Differential.

(** ** The jobs module, continued: [getJobStatus] and [storeMachineInfo] *)

Module JobsMore.

(** The columns [getJobStatus] selects. *)
Record JobStatusOne := {
  gs_service : string;
  gs_status : Status;
  gs_result : option string;
  gs_resultType : option ResultType
}.

(** [getJobStatus({ jobId, owner })]: the first row of
    [select ... where id = jobId and owner_hash = clusterId], [undefined]
    ([None]) when there is none.  The [jobStatusRequest] event goes to the
    event sink. *)
Definition getJobStatus (jobId clusterId : string) (db : Table)
    : option JobStatusOne :=
  match filter (fun j => String.eqb (id j) jobId
                         && String.eqb (owner_hash j) clusterId) db with
  | [] => None
  | job :: _ =>
      Some {| gs_service := service job;
              gs_status := status job;
              gs_result := result job;
              gs_resultType := result_type job |}
  end.

(** [status] column of [machines]: enum ["active", "inactive"]. *)
Inductive MachineStatus := active | inactive.

(** One row of [machines] (data.ts); the primary key is
    [(id, cluster_id)]. *)
Record Machine := {
  m_id : string;
  m_description : option string;
  m_machine_type : option string;
  m_last_ping_at : option Z;
  m_ip : option string;
  m_cluster_id : string;
  m_deployment_id : option string;
  m_status : option MachineStatus
}.

Definition is_machine (machineId clusterId : string) (m : Machine) : bool :=
  String.eqb (m_id m) machineId && String.eqb (m_cluster_id m) clusterId.

(** The SET list of the [onConflictDoUpdate]: [last_ping_at], [ip] and
    [status]; [deployment_id] is not in it. *)
Definition ping (t : Z) (ip : string) (m : Machine) : Machine :=
  {| m_id := m_id m;
     m_description := m_description m;
     m_machine_type := m_machine_type m;
     m_last_ping_at := Some t;
     m_ip := Some ip;
     m_cluster_id := m_cluster_id m;
     m_deployment_id := m_deployment_id m;
     m_status := Some active |}.

(** [storeMachineInfo(machineId, ip, owner, deploymentId)]: insert the
    machine, or on a conflict on [(id, cluster_id)] update the row that is
    there.  [t_insert] and [t_update] are the two [new Date()] of the
    statement; the omitted [status] column takes its default ["active"]. *)
Definition storeMachineInfo (t_insert t_update : Z)
    (machineId ip clusterId : string) (deploymentId : option string)
    (machines : list Machine) : list Machine :=
  if existsb (is_machine machineId clusterId) machines
  then map (fun m => if is_machine machineId clusterId m
                     then ping t_update ip m else m) machines
  else machines
       ++ [{| m_id := machineId;
              m_description := None;
              m_machine_type := None;
              m_last_ping_at := Some t_insert;
              m_ip := Some ip;
              m_cluster_id := clusterId;
              m_deployment_id := deploymentId;
              m_status := Some active |}].

End JobsMore.

Import JobsMore.

(** ** util.ts *)

Module Util.

Definition retryableStatusCodes : list Z := [408; 500; 502; 503; 504; 525; 429].

(** [retryableStatusCodes.includes(statusCode)]. *)
Definition isRetryableStatusCode (statusCode : Z) : bool :=
  existsb (Z.eqb statusCode) retryableStatusCodes.

(** *** [throttle(fn, delay)] *)

(** The three variables the two returned closures share: [wait],
    [cancelled], and whether the [timeout] last set is still to fire. *)
Record Throttle := {
  wait : bool;
  cancelled : bool;
  timer_pending : bool
}.

Definition throttle : Throttle :=
  {| wait := false; cancelled := false; timer_pending := false |}.

(** What a call of the throttled function gives back. *)
Inductive Called (R : Type) :=
| Undefined
| Value (r : R)
| Thrown.

Arguments Undefined {R}.
Arguments Value {R} r.
Arguments Thrown {R}.

(** The first closure.  [fn args = None] stands for a [fn] that throws: the
    lines after the call are then not reached. *)
Definition invoke {A R} (fn : A -> option R) (s : Throttle) (args : A)
    : Throttle * Called R :=
  if cancelled s then (s, Undefined)
  else if wait s then (s, Undefined)
  else
    match fn args with
    | Some val =>
        ({| wait := true; cancelled := cancelled s; timer_pending := true |},
         Value val)
    | None => (s, Thrown)
    end.

(** The callback of the [setTimeout], run when the delay is over; there is
    nothing to run when no timeout is pending. *)
Definition expire (s : Throttle) : Throttle :=
  if timer_pending s
  then {| wait := false; cancelled := cancelled s; timer_pending := false |}
  else s.

(** The second closure: [cancelled = true; clearTimeout(timeout)]. *)
Definition cancel (s : Throttle) : Throttle :=
  {| wait := wait s; cancelled := true; timer_pending := false |}.

(** What happens to a throttle, in order. *)
Inductive ThrottleEvent (A : Type) :=
| Invoke (args : A)
| Expire
| Cancel.

Arguments Invoke {A} args.
Arguments Expire {A}.
Arguments Cancel {A}.

(** The answers of the invocations among the events, in order. *)
Fixpoint throttled {A R} (fn : A -> option R) (s : Throttle)
    (events : list (ThrottleEvent A)) : list (Called R) :=
  match events with
  | [] => []
  | Invoke args :: rest =>
      let (s', r) := invoke fn s args in r :: throttled fn s' rest
  | Expire :: rest => throttled fn (expire s) rest
  | Cancel :: rest => throttled fn (cancel s) rest
  end.

End Util.

(** ** Differential.ts, continued: [pollForJob], the constructor, the
       function registry and the request limit of the agent *)

Module Client.

(** The settled [client.getJobStatus]: a 200 with its body, a status other
    than 200, or a rejected request. *)
Inductive StatusResponse :=
| Ok200 (st : Status) (res : option string) (resultType : option ResultType)
| Status (code : Z)
| RequestFailed.

(** [result.status === 200 && (body.status === "pending" || body.status ===
    "running")]. *)
Definition jobPending (r : StatusResponse) : bool :=
  match r with
  | Ok200 st _ _ => Status_eqb st pending || Status_eqb st running
  | _ => false
  end.

(** [status] is 503, 504, 502, 500 or 429. *)
Definition serviceUnavailable (r : StatusResponse) : bool :=
  match r with
  | Status code =>
      (code =? 503) || (code =? 504) || (code =? 502) || (code =? 500)
      || (code =? 429)
  | _ => false
  end.

Inductive PollError :=
| UNEXPECTED_ERROR
| JOB_TIMEOUT (attempts : nat)
| Transport.

(** How [pollForJob] ends: with the packed result and its type, with an
    error, or still waiting for an answer when the listed answers are used
    up. *)
Inductive Polled :=
| Result (content : option string) (type : option ResultType)
| Failed (e : PollError)
| Waiting (attempt : nat).

(** [pollForJob(client, params, authHeader, attempt)], with the answers its
    requests get and the milliseconds it sleeps between them.  The result
    is left packed. *)
Fixpoint pollForJob (answers : list StatusResponse) (attempt : nat)
    : Polled * list Z :=
  match answers with
  | [] => (Waiting attempt, [])
  | r :: rest =>
      match r with
      | RequestFailed => (Failed Transport, [])
      | Ok200 success res ty => (Result res ty, [])
      | Ok200 failure _ _ => (Failed UNEXPECTED_ERROR, [])
      | _ =>
          if jobPending r || serviceUnavailable r then
            if (10 <? attempt)%nat then (Failed (JOB_TIMEOUT attempt), [])
            else
              let (end_, slept) := pollForJob rest (S attempt) in
              (end_, 1000 * Z.of_nat attempt :: slept)
          else (Failed UNEXPECTED_ERROR, [])
      end
  end.

(** *** The constructor *)

Record Options := {
  o_endpoint : option string;
  o_encryptionKeys : option (list string);   (* Buffers, as byte strings *)
  o_jobPollWaitTime : option Z
}.

(** What the constructor reads besides its arguments: the two environment
    variables and the machine id drawn from [Math.random()]. *)
Record Process := {
  DIFFERENTIAL_DEPLOYMENT_ID : option string;
  DIFFERENTIAL_DEPLOYMENT_PROVIDER : option string;
  random_id : string
}.

Record DifferentialClient := {
  authHeader : string;
  endpoint : string;
  machineId : string;
  deploymentId : option string;
  jobPollWaitTime : option Z;
  d_maxIdleCycles : option nat
}.

Inductive ConstructorError :=
| BadKeyLength (len : nat) (index : nat)
| PollWaitTooShort.

(** [encryptionKeys.forEach((key, i) => { if (key.length !== 32) throw })]:
    the first key that is not 32 bytes long, counted from [i]. *)
Fixpoint first_bad_key (keys : list string) (i : nat) : option (nat * nat) :=
  match keys with
  | [] => None
  | key :: rest =>
      if (String.length key =? 32)%nat then first_bad_key rest (S i)
      else Some (String.length key, i)
  end.

(** [new Differential(apiSecret, options)]. *)
Definition new_Differential (env : Process) (apiSecret : string)
    (options : option Options) : ConstructorError + DifferentialClient :=
  match first_bad_key (nullish (chain options o_encryptionKeys) []) 0 with
  | Some (len, i) => inl (BadKeyLength len i)
  | None =>
      match constructor_jobPollWaitTime (chain options o_jobPollWaitTime) with
      | None => inl PollWaitTooShort
      | Some kept =>
          inr {| authHeader := "Basic " ++ apiSecret;
                 endpoint :=
                   match chain options o_endpoint with
                   | Some e => if String.eqb e "" then "https://api.differential.dev"
                               else e
                   | None => "https://api.differential.dev"
                   end;
                 machineId := random_id env;
                 deploymentId := DIFFERENTIAL_DEPLOYMENT_ID env;
                 jobPollWaitTime := kept;
                 d_maxIdleCycles :=
                   match DIFFERENTIAL_DEPLOYMENT_PROVIDER env with
                   | Some provider =>
                       if String.eqb provider "lambda" then Some 2%nat else None
                   | None => None
                   end |}
      end
  end.

(** *** The agent's request *)

(** [Math.ceil((pollState.concurrency - pollState.current) / 2)], the
    [limit] of the [createJobsRequest] body. *)
Definition request_limit (a : PollingAgent) : Z :=
  (concurrency a - current a + 1) / 2.

(** [setConcurrency(concurrency)]. *)
Definition setConcurrency (c : Z) (a : PollingAgent) : PollingAgent :=
  {| errorCount := errorCount a; idleCycleCount := idleCycleCount a;
     aborted := aborted a; pollingAborted := pollingAborted a;
     current := current a; concurrency := c;
     maxIdleCycles := maxIdleCycles a |}.

End Client.

(** ** Differential.ts, continued: the function registry *)

Module Registry.

(** An entry of [functionRegistry]; its [name] field holds the name of the
    service.  [idempotent] and [retryConfig] are what [isFunctionIdempotent]
    and [retryConfigForFunction] read off the function. *)
Record Entry := {
  name : string;
  idempotent : bool;
  retryConfig : option (Z * Z)   (* maxAttempts, timeoutIntervalSeconds *)
}.

(** The own properties of [functionRegistry], in insertion order. *)
Definition FunctionRegistry := list (string * Entry).

(** The properties the object literal [{}] inherits. *)
Definition Object_prototype : list string :=
  ["constructor"; "__defineGetter__"; "__defineSetter__"; "hasOwnProperty";
   "__lookupGetter__"; "__lookupSetter__"; "isPrototypeOf";
   "propertyIsEnumerable"; "toString"; "valueOf"; "__proto__";
   "toLocaleString"].

Definition own (reg : FunctionRegistry) (key : string) : bool :=
  existsb (fun e => String.eqb (fst e) key) reg.

(** The truth value of [functionRegistry[key]]: own entries are objects, and
    the lookup also finds what the prototype holds. *)
Definition registered (reg : FunctionRegistry) (key : string) : bool :=
  own reg key || mem key Object_prototype.

Inductive RegistryError :=
| AlreadyRegistered (key : string)
| MustHaveName.

(** [register({ fn, name, serviceName })], reached from [service] with a
    function value and a key that is not in the registry. *)
Definition register (serviceName key : string) (idem : bool)
    (retry : option (Z * Z)) (reg : FunctionRegistry)
    : RegistryError + FunctionRegistry :=
  if String.eqb key "" then inl MustHaveName
  else inr (reg ++ [(key, {| name := serviceName; idempotent := idem;
                             retryConfig := retry |})]).

(** The loop of [service(service)] over [Object.entries(service.functions)].
    The registry is shared by the process: what the loop wrote before it
    threw stays written. *)
Fixpoint service (serviceName : string)
    (functions : list (string * (bool * option (Z * Z))))
    (reg : FunctionRegistry) : FunctionRegistry * option RegistryError :=
  match functions with
  | [] => (reg, None)
  | (key, (idem, retry)) :: rest =>
      if registered reg key then (reg, Some (AlreadyRegistered key))
      else
        match register serviceName key idem retry reg with
        | inl e => (reg, Some e)
        | inr reg' => service serviceName rest reg'
        end
  end.

(** The value of a decimal digit. *)
Definition digit (c : ascii) : option N :=
  let n := N_of_ascii c in
  if ((48 <=? n) && (n <=? 57))%N then Some (n - 48)%N else None.

Fixpoint decimal (s : string) (acc : N) : option N :=
  match s with
  | EmptyString => Some acc
  | String c rest =>
      match digit c with
      | Some d => decimal rest (10 * acc + d)%N
      | None => None
      end
  end.

(** An array index: a property name that is the decimal form, without
    leading zeros, of an integer below [2^32 - 1]. *)
Definition array_index (key : string) : option N :=
  match key with
  | EmptyString => None
  | String c rest =>
      if Ascii.eqb c "0"%char && negb (String.eqb rest "") then None
      else
        match decimal key 0 with
        | Some n => if (n <? 4294967295)%N then Some n else None
        | None => None
        end
  end.

(** [place n e l]: the entry [e] of index [n] put in its place among the
    entries [l], which are in ascending order of their indices. *)
Fixpoint place (n : N) (e : string * Entry)
    (l : list (N * (string * Entry))) : list (N * (string * Entry)) :=
  match l with
  | [] => [(n, e)]
  | (m, x) :: rest =>
      if (m <? n)%N then (m, x) :: place n e rest else (n, e) :: l
  end.

(** The own properties whose name is an array index, in ascending order of
    the index. *)
Fixpoint indexed (reg : FunctionRegistry) : list (N * (string * Entry)) :=
  match reg with
  | [] => []
  | e :: rest =>
      match array_index (fst e) with
      | Some n => place n e (indexed rest)
      | None => indexed rest
      end
  end.

(** The other own properties, in the order they were created. *)
Definition named (reg : FunctionRegistry) : list (string * Entry) :=
  filter (fun e => match array_index (fst e) with
                   | Some _ => false
                   | None => true
                   end) reg.

(** [Object.entries(functionRegistry)]: the array indices first, in
    ascending order, then the other names in the order of their
    creation. *)
Definition entries (reg : FunctionRegistry) : list (string * Entry) :=
  map snd (indexed reg) ++ named reg.

(** The [functions] of a [createJobsRequest]: the entries whose [name] is
    the agent's service, in the order of [Object.entries]. *)
Definition functions_of (serviceName : string) (reg : FunctionRegistry)
    : list (string * bool * option (Z * Z)) :=
  map (fun e => (fst e, idempotent (snd e), retryConfig (snd e)))
      (filter (fun e => String.eqb (name (snd e)) serviceName)
              (entries reg)).

End Registry.

(** ** results-poller.ts *)

Module Poller.

Inductive Delivery :=
| Outcome (content : option string) (type : option ResultType)
| REMOTE_EXECUTION_ERROR
| TOO_MANY_NETWORK_ERRORS.

(** A [Workload]; its [onResult] hands the outcome to the caller of
    [getResult] and then deletes the job. *)
Record Workload := {
  jobId : string;
  attempts : nat;
  w_result : option Delivery
}.

(** The poller: the own properties of [jobs] in insertion order, and the
    error counter. *)
Record ResultsPoller := {
  jobs : list (string * Workload);
  currentErrorCycle : nat
}.

Definition MAX_ERROR_CYCLES : nat := 50.

Definition new_poller : ResultsPoller :=
  {| jobs := []; currentErrorCycle := 0 |}.

(** [jobs[key] = w]: an own key keeps its place. *)
Fixpoint assign (key : string) (w : Workload) (l : list (string * Workload))
    : list (string * Workload) :=
  match l with
  | [] => [(key, w)]
  | (k, v) :: rest =>
      if String.eqb k key then (k, w) :: rest
      else (k, v) :: assign key w rest
  end.

(** [delete jobs[key]]. *)
Definition delete (key : string) (l : list (string * Workload))
    : list (string * Workload) :=
  filter (fun e => negb (String.eqb (fst e) key)) l.

Definition lookup (key : string) (l : list (string * Workload))
    : option Workload :=
  match filter (fun e => String.eqb (fst e) key) l with
  | [] => None
  | e :: _ => Some (snd e)
  end.

(** [getResult(jobId, onResult)].  An assignment to [jobs["__proto__"]]
    makes no own property. *)
Definition getResult (id : string) (p : ResultsPoller) : ResultsPoller :=
  if String.eqb id "__proto__" then p
  else
    {| jobs := assign id {| jobId := id; attempts := 0; w_result := None |}
                      (jobs p);
       currentErrorCycle := currentErrorCycle p |}.

(** The settled [client.getJobStatuses]. *)
Inductive BatchResponse :=
| Batch200 (body : list JobStatus)
| RateLimited                   (* 429 *)
| OtherStatus (code : Z)
| RequestRejected.

(** What [next] does to the outside. *)
Inductive Effect :=
| Request (jobIds : list string)
| Wait (ms : Z)
| Deliver (id : string) (d : Delivery).

(** [jobs[job.id].result = r; jobs[job.id].onResult(null, r)] for each row
    of [rows], in order.  [None]: [jobs[job.id]] was [undefined] and the
    assignment threw. *)
Fixpoint settle (outcome : JobStatus -> Delivery) (rows : list JobStatus)
    (l : list (string * Workload))
    : option (list (string * Workload) * list Effect) :=
  match rows with
  | [] => Some (l, [])
  | job :: rest =>
      match lookup (js_id job) l with
      | None => None
      | Some _ =>
          match settle outcome rest (delete (js_id job) l) with
          | Some (l', effects) =>
              Some (l', Deliver (js_id job) (outcome job) :: effects)
          | None => None
          end
      end
  end.

(** [job.onResult(error, null)] for each unresolved job. *)
Definition fail_all (unresolved : list Workload)
    (l : list (string * Workload)) : list (string * Workload) * list Effect :=
  (fold_left (fun acc w => delete (jobId w) acc) unresolved l,
   map (fun w => Deliver (jobId w) TOO_MANY_NETWORK_ERRORS) unresolved).

(** One [next()], given the answer its request gets.  [None]: [next]
    rejected, the loop of [start] is over. *)
Definition next (p : ResultsPoller) (answer : BatchResponse)
    : option (ResultsPoller * list Effect) :=
  let unresolved :=
    filter (fun w => match w_result w with None => true | Some _ => false end)
           (map snd (jobs p)) in
  match unresolved with
  | [] => Some (p, [])
  | _ :: _ =>
      let request := Request (map jobId unresolved) in
      match answer with
      | RequestRejected => None
      | Batch200 body =>
          match settle (fun job => Outcome (js_result job) (js_resultType job))
                  (filter (fun job => Status_eqb (js_status job) success) body)
                  (jobs p) with
          | None => None
          | Some (l1, e1) =>
              match settle (fun _ => REMOTE_EXECUTION_ERROR)
                      (filter (fun job => Status_eqb (js_status job) failure)
                              body)
                      l1 with
              | None => None
              | Some (l2, e2) =>
                  Some ({| jobs := l2; currentErrorCycle := 0 |},
                        request :: e1 ++ e2)
              end
          end
      | RateLimited => Some (p, [request; Wait 5000])
      | OtherStatus _ =>
          let cycles := S (currentErrorCycle p) in
          if (MAX_ERROR_CYCLES <? cycles)%nat then
            let (l, effects) := fail_all unresolved (jobs p) in
            Some ({| jobs := l; currentErrorCycle := cycles |},
                  request :: Wait 5000 :: effects)
          else
            Some ({| jobs := jobs p; currentErrorCycle := cycles |},
                  [request; Wait 5000])
      end
  end.

(** The loop of [start] over the answers given: [next], then 100 ms. *)
Fixpoint run (p : ResultsPoller) (answers : list BatchResponse)
    : option (ResultsPoller * list Effect) :=
  match answers with
  | [] => Some (p, [])
  | answer :: rest =>
      match next p answer with
      | None => None
      | Some (p', effects) =>
          match run p' rest with
          | None => None
          | Some (p'', effects') => Some (p'', effects ++ Wait 100 :: effects')
          end
      end
  end.

End Poller.

(** ** The Lambda provider (deployment/lambda-provider.ts) *)

Module Lambda.

(** What [lambdaClient.send(command)] does: it resolves with a response or
    rejects with an error of some [name]. *)
Inductive SendResult :=
| Sent (response : string)
| Raised (name : string).

(** How a call ends: it returns the response, or [undefined], or throws. *)
Inductive Settled :=
| Returned (response : option string)
| Thrown (name : string).

(** [sendFunctionUpdateCommand(functionName, deployment, command, attempt)],
    over the outcomes of the sends it makes, in order.  The answer carries
    the waits of the call, in order; [None] when the outcomes run out before
    the call ends.  The retry is awaited and followed by a bare [return]. *)
Fixpoint sendFunctionUpdateCommand (sends : list SendResult) (attempt : Z)
    : option (Settled * list Z) :=
  match sends with
  | [] => None
  | Sent response :: _ => Some (Returned (Some response), [])
  | Raised name :: rest =>
      if 5 <? attempt then Some (Thrown name, [])
      else if String.eqb name "ResourceConflictException" then
        let waitTime := 1000 * attempt in
        match sendFunctionUpdateCommand rest (attempt + 1) with
        | Some (Returned _, waits) => Some (Returned None, waitTime :: waits)
        | Some (Thrown e, waits) => Some (Thrown e, waitTime :: waits)
        | None => None
        end
      else Some (Thrown name, [])
  end.

End Lambda.

(** ** [nextJobs] and the plan of the store *)

Module Scan.

(** The inner SELECT of [nextJobs] has a LIMIT and no ORDER BY: it yields
    the first [limit] matching rows in the order in which the plan the store
    chose visits the table (the heap for a sequential scan, an index for an
    index scan).  [scan] is that order, a rearrangement of the rows of the
    table; the UPDATE then rewrites the rows of the table whose id was
    yielded.  [Jobs.nextJobs] is the case of a plan that visits the rows in
    the order of the list. *)
Definition nextJobs_by (scan : Table) (now : Z) (p : NextJobsParams)
    (db : Table) : option (Table * list NextJob) :=
  if nj_limit p <? 0 then None
  else
    let ids := selected_ids p scan in
    let db' := update_claimed now (nj_machineId p) ids db in
    Some (db', returning ids db').

End Scan.

(** ** Specification vocabulary *)

Module Spec.

(** The claim of a row as the dispatcher is documented to make it: four
    columns change, every other column is carried over. *)
Record claimed_from (now : Z) (machineId : string) (j j' : Job) : Prop := {
  cf_status : status j' = running;
  cf_remaining_attempts : remaining_attempts j' = remaining_attempts j - 1;
  cf_last_retrieved_at : last_retrieved_at j' = Some now;
  cf_executing_machine_id : executing_machine_id j' = Some machineId;
  cf_id : id j' = id j;
  cf_owner_hash : owner_hash j' = owner_hash j;
  cf_deployment_id : deployment_id j' = deployment_id j;
  cf_target_fn : target_fn j' = target_fn j;
  cf_target_args : target_args j' = target_args j;
  cf_idempotency_key : idempotency_key j' = idempotency_key j;
  cf_cache_key : cache_key j' = cache_key j;
  cf_result : result j' = result j;
  cf_result_type : result_type j' = result_type j;
  cf_created_at : created_at j' = created_at j;
  cf_updated_at : updated_at j' = updated_at j;
  cf_resulted_at : resulted_at j' = resulted_at j;
  cf_function_execution_time_ms :
    function_execution_time_ms j' = function_execution_time_ms j;
  cf_timeout_interval_seconds :
    timeout_interval_seconds j' = timeout_interval_seconds j;
  cf_service : service j' = service j;
  cf_predicted_to_be_retryable :
    predicted_to_be_retryable j' = predicted_to_be_retryable j;
  cf_predicted_to_be_retryable_reason :
    predicted_to_be_retryable_reason j' = predicted_to_be_retryable_reason j;
  cf_predictive_retry_count :
    predictive_retry_count j' = predictive_retry_count j
}.

(** The WHERE clause of the dispatcher, as a proposition. *)
Definition Selectable (p : NextJobsParams) (j : Job) : Prop :=
  (status j = pending \/ (status j = failure /\ 0 < remaining_attempts j))
  /\ owner_hash j = nj_clusterId p
  /\ service j = nj_service p.

(** The ids of the rows a poll got. *)
Definition claimed_ids (jobs : list NextJob) : list string :=
  map job_id jobs.

(** Ids in ULID order: the order of the strings. *)
Definition id_lt (a b : Job) : Prop := String.ltb (id a) (id b) = true.

(** A row that the cache probe of an admission accepts: same cache key,
    cluster, service and function, a successful resolution, resulted at or
    after the threshold [now - ttl]. *)
Definition CacheHit (cacheKey : string) (c : CreateJobParams)
    (threshold : Z) (j : Job) : Prop :=
  cache_key j = Some cacheKey
  /\ owner_hash j = s_clusterId c
  /\ service j = s_service c
  /\ target_fn j = s_targetFn c
  /\ status j = success
  /\ result_type j = Some resolution
  /\ exists t, resulted_at j = Some t /\ threshold <= t.

(** Some row of a long-poll read has reached [success] or [failure]. *)
Definition Resolved (jobs : list JobStatus) : Prop :=
  exists r, In r jobs /\ (js_status r = success \/ js_status r = failure).

(** What a long-poll is documented to return of a row of the table: its
    id, service, status, result and result type. *)
Definition read_of (j : Job) : JobStatus :=
  {| js_id := id j;
     js_service := service j;
     js_status := status j;
     js_result := result j;
     js_resultType := result_type j |}.

(** A row a long-poll is asked about: a row of the caller's cluster whose id
    is among the ids asked for. *)
Definition Asked (clusterId : string) (jobIds : list string) (j : Job)
    : Prop :=
  owner_hash j = clusterId /\ In (id j) jobIds.

(** The table holds a row the long-poll is asked about that has reached
    [success] or [failure]. *)
Definition ResolvedRow (clusterId : string) (jobIds : list string)
    (db : Table) : Prop :=
  exists j, In j db /\ Asked clusterId jobIds j
            /\ (status j = success \/ status j = failure).

(** The actions of [k] rounds that each read, found nothing resolved and
    slept, starting with round [n]. *)
Definition waiting_rounds (n k : nat) : list Action :=
  flat_map (fun i => [DbRead i; Sleep 500]) (seq n k).

(** The idle shutdown of an agent is due: [maxIdleCycles] is set and
    reached. *)
Definition idle_exhausted (a : PollingAgent) : Prop :=
  exists m, maxIdleCycles a = Some m /\ m <> 0%nat
            /\ (m <= idleCycleCount a)%nat.

(** An agent that has made [e] failed polls in a row since it last took
    jobs, none of them running now. *)
Definition erring (maxIdle : option nat) (e : nat) : PollingAgent :=
  {| errorCount := e; idleCycleCount := 0; aborted := false;
     pollingAborted := false; current := 0; concurrency := 100;
     maxIdleCycles := maxIdle |}.

(** The attempts an admission is documented to give a new row. *)
Definition attempts_of (p : Params) : Z :=
  match chain (p_callConfig p) retryCountOnStall with
  | Some v => 1 + v
  | None => 2
  end.

End Spec.

Import Spec.

(** ** Sample data *)

Module Fixtures.

(** A row of cluster [cluster-1], service [greeter], as admission leaves
    it, with the given id, status and attempts. *)
Definition job (i : string) (st : Status) (attempts : Z) : Job :=
  {| id := i; owner_hash := "cluster-1"; deployment_id := None;
     target_fn := "hello"; target_args := "[]"; idempotency_key := i;
     cache_key := None; status := st; result := None; result_type := None;
     executing_machine_id := None; remaining_attempts := attempts;
     created_at := 1000; updated_at := 1000; resulted_at := None;
     last_retrieved_at := None; function_execution_time_ms := None;
     timeout_interval_seconds := None; service := "greeter";
     predicted_to_be_retryable := None;
     predicted_to_be_retryable_reason := None;
     predictive_retry_count := Some 0 |}.

(** A worker of [cluster-1] polling for [greeter]. *)
Definition worker (limit : Z) : NextJobsParams :=
  {| nj_service := "greeter"; nj_clusterId := "cluster-1";
     nj_limit := limit; nj_machineId := "m1";
     nj_deploymentId := None; nj_ip := "10.0.0.1" |}.

(** A pending row that has no attempt left. *)
Definition spent : Job := job "01A" pending 0.

Definition in_order : Table :=
  [job "01A" pending 2; job "01B" failure 1; job "01C" failure 0].

(** An admission of [hello] on [greeter] with the given call config. *)
Definition hello (cfg : option CallConfig) : Params :=
  {| p_service := "greeter"; p_targetFn := "hello"; p_targetArgs := "[]";
     p_clusterId := "cluster-1"; p_deploymentId := None;
     p_callConfig := cfg |}.

(** The outside of an admission at time [t] whose [ulid()] yields [i]; the
    store fills [idempotency_key] with the job id. *)
Definition at_time (t : Z) (i : string) : Env :=
  {| now := t; db_now := t; ulid := i;
     idempotency_key_default := Some i; operational := true |}.

Definition with_retries (n : Z) : option CallConfig :=
  Some {| cache := None; retryCountOnStall := Some n;
          predictiveRetriesOnRejection := None; timeoutSeconds := None;
          executionId := None |}.


Definition with_cache (k : string) (ttl : Z) : option CallConfig :=
  Some {| cache := Some {| key := k; ttlSeconds := ttl |};
          retryCountOnStall := None;
          predictiveRetriesOnRejection := None; timeoutSeconds := None;
          executionId := None |}.

(** A row of [hello] that resolved at time [t] under cache key [k]. *)
Definition resolved_at (i k : string) (t : Z) : Job :=
  {| id := i; owner_hash := "cluster-1"; deployment_id := None;
     target_fn := "hello"; target_args := "[]"; idempotency_key := i;
     cache_key := Some k; status := success; result := Some "42";
     result_type := Some resolution; executing_machine_id := Some "m1";
     remaining_attempts := 1; created_at := 1000; updated_at := 1000;
     resulted_at := Some t; last_retrieved_at := Some 2000;
     function_execution_time_ms := Some 5;
     timeout_interval_seconds := None; service := "greeter";
     predicted_to_be_retryable := None;
     predicted_to_be_retryable_reason := None;
     predictive_retry_count := Some 0 |}.

(** Two cached results of the same key that resulted at the same time. *)
Definition tied : Table :=
  [resolved_at "01A" "k" 9000; resolved_at "01B" "k" 9000].

(** A store that never changes, seen by a clock that advances 500 ms per
    round. *)
Definition still (db : Table) : World :=
  {| db_at := fun _ => db; clock := fun n => 1000 + 500 * Z.of_nat n |}.

(** A store in which row [01A] succeeds just before the third read. *)
Definition succeeds_at_2 : World :=
  {| db_at := fun n => if (n <? 2)%nat
                       then [job "01A" running 1; job "01B" pending 2]
                       else [resolved_at "01A" "k" 1900; job "01B" pending 2];
     clock := fun n => 1000 + 500 * Z.of_nat n |}.

(** A turn whose request is answered 500, a turn whose request fails in
    the network, and a turn answered 401. *)
Definition failing : Tick := {| completed := 0; answer := Http 500 0 |}.
Definition unreachable : Tick := {| completed := 0; answer := Rejected |}.
Definition unauthorised : Tick := {| completed := 0; answer := Http 401 0 |}.

Definition errors (n : nat) : list Tick := repeat failing n.

End Fixtures.

(** ** Vocabulary and sample data for the rest of the code *)

Module More.

(** The primary key of a row. *)
Definition pk (j : Job) : string * string * string :=
  (owner_hash j, target_fn j, idempotency_key j).

(** The row an admission inserts when the store gives it the key [k]. *)
Definition admitted_row (e : Env) (p : Params) (k : string) : Job :=
  row_of_values (db_now e) k
    {| v_id := ulid e;
       v_target_fn := p_targetFn p;
       v_target_args := p_targetArgs p;
       v_status := pending;
       v_owner_hash := p_clusterId p;
       v_deployment_id := p_deploymentId p;
       v_service := p_service p;
       v_cache_key :=
         match cache_requested p with
         | Some c => Some (key c)
         | None => None
         end;
       v_remaining_attempts := nullish (s_maxAttempts (strategy_params p)) 1;
       v_timeout_interval_seconds :=
         s_timeoutIntervalSeconds (strategy_params p) |}.

(** What [getJobStatus] shows of a row. *)
Definition shown (j : Job) : JobStatusOne :=
  {| gs_service := service j; gs_status := status j;
     gs_result := result j; gs_resultType := result_type j |}.

(** The milliseconds slept and the reads made in a run of the long-poll. *)
Fixpoint slept (acts : list Action) : Z :=
  match acts with
  | [] => 0
  | Sleep ms :: rest => ms + slept rest
  | DbRead _ :: rest => slept rest
  end.

Fixpoint reads (acts : list Action) : nat :=
  match acts with
  | [] => 0
  | DbRead _ :: rest => S (reads rest)
  | Sleep _ :: rest => reads rest
  end.

Definition total (l : list Z) : Z := fold_right Z.add 0 l.

(** The primary key of a machine. *)
Definition mkey (m : Machine) : string * string := (m_id m, m_cluster_id m).

(** An answer [pollForJob] polls again after. *)
Definition retried (r : Client.StatusResponse) : Prop :=
  Client.jobPending r || Client.serviceUnavailable r = true.

(** The invocations that ran [fn] to its end, and the delays that ran out. *)
Fixpoint ran {R} (answers : list (Util.Called R)) : nat :=
  match answers with
  | [] => 0
  | Util.Value _ :: rest => S (ran rest)
  | _ :: rest => ran rest
  end.

Fixpoint expiries {A} (events : list (Util.ThrottleEvent A)) : nat :=
  match events with
  | [] => 0
  | Util.Expire :: rest => S (expiries rest)
  | _ :: rest => expiries rest
  end.

(** The throttle after the events. *)
Fixpoint throttle_after {A R} (fn : A -> option R) (s : Util.Throttle)
    (events : list (Util.ThrottleEvent A)) : Util.Throttle :=
  match events with
  | [] => s
  | Util.Invoke args :: rest =>
      throttle_after fn (fst (Util.invoke fn s args)) rest
  | Util.Expire :: rest => throttle_after fn (Util.expire s) rest
  | Util.Cancel :: rest => throttle_after fn (Util.cancel s) rest
  end.

(** An agent that has made [k] polls in a row that brought no job. *)
Definition idling (maxIdle : option nat) (k : nat) : PollingAgent :=
  {| errorCount := 0; idleCycleCount := k; aborted := false;
     pollingAborted := false; current := 0; concurrency := 100;
     maxIdleCycles := maxIdle |}.

(** A turn whose request is answered 200 with no job. *)
Definition empty_turn : Tick := {| completed := 0; answer := Http 200 0 |}.

(** The registry entry [service] writes for a function of a definition, and
    what a poll advertises of it. *)
Definition entry_of (serviceName : string)
    (f : string * (bool * option (Z * Z))) : string * Registry.Entry :=
  (fst f, {| Registry.name := serviceName;
             Registry.idempotent := fst (snd f);
             Registry.retryConfig := snd (snd f) |}).


(** The ids a poller holds, and a poller as [getResult] builds it: every
    workload sits under its own job id and has no result yet. *)
Definition held (p : Poller.ResultsPoller) : list string :=
  map fst (Poller.jobs p).

Definition waiting_for_all (p : Poller.ResultsPoller) : Prop :=
  Forall (fun e => Poller.jobId (snd e) = fst e
                   /\ Poller.w_result (snd e) = None) (Poller.jobs p).

(** The outcomes handed to callers among the effects. *)
Fixpoint deliveries (effects : list Poller.Effect)
    : list (string * Poller.Delivery) :=
  match effects with
  | [] => []
  | Poller.Deliver i d :: rest => (i, d) :: deliveries rest
  | _ :: rest => deliveries rest
  end.

(** The rows of a 200 body that settle a job: the successes, then the
    failures. *)
Definition successes (body : list JobStatus) : list JobStatus :=
  filter (fun job => Status_eqb (js_status job) success) body.

Definition failures (body : list JobStatus) : list JobStatus :=
  filter (fun job => Status_eqb (js_status job) failure) body.

Definition settled (body : list JobStatus) : list JobStatus :=
  successes body ++ failures body.

(** Answers that are a 429 or an error status, and the error statuses among
    them. *)
Definition unanswered (r : Poller.BatchResponse) : Prop :=
  r = Poller.RateLimited \/ exists code, r = Poller.OtherStatus code.

Fixpoint error_cycles (answers : list Poller.BatchResponse) : nat :=
  match answers with
  | [] => 0
  | Poller.OtherStatus _ :: rest => S (error_cycles rest)
  | _ :: rest => error_cycles rest
  end.

End More.

Import More.

Module Samples.

Definition machine (i c : string) (dep : option string) (t : Z) : Machine :=
  {| m_id := i; m_description := None; m_machine_type := None;
     m_last_ping_at := Some t; m_ip := Some "10.0.0.1"; m_cluster_id := c;
     m_deployment_id := dep; m_status := Some inactive |}.

Definition fleet : list Machine :=
  [machine "m1" "cluster-1" (Some "dep-1") 1000;
   machine "m1" "cluster-2" None 1000].

(** A pending row of [cluster-1] and [greeter] with id [i] for the function
    [fn]. *)
Definition call (i fn : string) : Job :=
  {| id := i; owner_hash := "cluster-1"; deployment_id := None;
     target_fn := fn; target_args := "[]"; idempotency_key := i;
     cache_key := None; status := pending; result := None;
     result_type := None; executing_machine_id := None;
     remaining_attempts := 2; created_at := 1000; updated_at := 1000;
     resulted_at := None; last_retrieved_at := None;
     function_execution_time_ms := None; timeout_interval_seconds := None;
     service := "greeter"; predicted_to_be_retryable := None;
     predicted_to_be_retryable_reason := None;
     predictive_retry_count := Some 0 |}.

(** Two calls admitted in the same millisecond, [01B] of [alpha] inserted
    before [01A] of [zeta].  The rows are listed in the order they were
    inserted, which is also their order in the index of the primary key
    [(owner_hash, target_fn, idempotency_key)]. *)
Definition two_calls : Table := [call "01B" "alpha"; call "01A" "zeta"].



(** A poller that was asked for the results of two jobs. *)
Definition asked : Poller.ResultsPoller :=
  Poller.getResult "01B" (Poller.getResult "01A" Poller.new_poller).

Definition row (i : string) (st : Status) : JobStatus :=
  {| js_id := i; js_service := "greeter"; js_status := st;
     js_result := Some "42"; js_resultType := Some resolution |}.

End Samples.

(** * Properties *)

(** ** Booleans of the model against propositions *)

Lemma Status_eqb_eq (a b : Status) : Status_eqb a b = true <-> a = b.
Proof. destruct a, b; simpl; split; congruence. Qed.

Lemma ResultType_eqb_eq (a b : ResultType) : ResultType_eqb a b = true <-> a = b.
Proof. destruct a, b; simpl; split; congruence. Qed.

Lemma mem_In (x : string) (l : list string) : mem x l = true <-> In x l.
Proof.
  unfold mem. rewrite existsb_exists. split.
  - intros (y & Hy & E). apply String.eqb_eq in E. now subst.
  - intros H. exists x. split; [assumption | apply String.eqb_refl].
Qed.

Lemma mem_false (x : string) (l : list string) : mem x l = false <-> ~ In x l.
Proof.
  rewrite <- mem_In. destruct (mem x l); split; intros; congruence.
Qed.

Lemma selectable_iff (p : NextJobsParams) (j : Job) :
  selectable p j = true <-> Selectable p j.
Proof.
  unfold selectable, Selectable.
  rewrite !andb_true_iff, orb_true_iff, andb_true_iff, !Status_eqb_eq,
    !String.eqb_eq, Z.ltb_lt.
  tauto.
Qed.

(** ** Rows and their ids *)

Lemma firstn_In {A} (n : nat) (l : list A) (x : A) :
  In x (firstn n l) -> In x l.
Proof.
  intros H. rewrite <- (firstn_skipn n l). apply in_or_app. now left.
Qed.

Lemma NoDup_map_filter {A B} (f : A -> B) (g : A -> bool) (l : list A) :
  NoDup (map f l) -> NoDup (map f (filter g l)).
Proof.
  induction l as [| a l IH]; simpl; trivial.
  intros ND. inversion ND as [| ? ? Hnot ND']; subst.
  destruct (g a); simpl; [| now apply IH].
  constructor; [| now apply IH].
  intros Hin. apply Hnot. apply in_map_iff in Hin.
  destruct Hin as (x & E & Hx). apply filter_In in Hx.
  rewrite <- E. apply in_map. tauto.
Qed.

Lemma NoDup_firstn {A} (n : nat) (l : list A) :
  NoDup l -> NoDup (firstn n l).
Proof.
  intros ND. rewrite <- (firstn_skipn n l) in ND.
  exact (NoDup_app_remove_r _ _ ND).
Qed.

Lemma Permutation_filter_same {A} (f : A -> bool) (l l' : list A) :
  Permutation l l' -> Permutation (filter f l) (filter f l').
Proof.
  induction 1 as [| x l l' _ IH | x y l | l l' l'' _ IH1 _ IH2]; simpl.
  - constructor.
  - destruct (f x); [now constructor | exact IH].
  - destruct (f x), (f y); try apply Permutation_refl.
    apply perm_swap.
  - now apply Permutation_trans with (filter f l').
Qed.

Lemma unique_id_row (db : Table) (a b : Job) :
  NoDup (map id db) -> In a db -> In b db -> id a = id b -> a = b.
Proof.
  induction db as [| r db IH]; simpl; [tauto |].
  intros ND Ha Hb E. inversion ND as [| ? ? Hnot ND']; subst.
  destruct Ha as [-> | Ha], Hb as [-> | Hb]; trivial.
  - exfalso. apply Hnot. rewrite E. now apply in_map.
  - exfalso. apply Hnot. rewrite <- E. now apply in_map.
  - now apply IH.
Qed.

Lemma update_claimed_ids now m ids (db : Table) :
  map id (update_claimed now m ids db) = map id db.
Proof.
  unfold update_claimed. rewrite map_map. apply map_ext.
  intros j. now destruct (mem (id j) ids).
Qed.

Lemma returning_ids now m ids (db : Table) :
  claimed_ids (returning ids (update_claimed now m ids db))
  = map id (filter (fun j => mem (id j) ids) db).
Proof.
  unfold claimed_ids, returning, update_claimed. rewrite map_map. simpl.
  induction db as [| j db IH]; simpl; trivial.
  destruct (mem (id j) ids) eqn:E; simpl; rewrite E; simpl; now rewrite IH.
Qed.

(** With unique ids, the rows whose id is among the first [n] selected ids
    are the first [n] selected rows. *)
Lemma filter_selected_firstn (f : Job -> bool) (db : Table) :
  NoDup (map id db) ->
  forall n,
    filter (fun j => mem (id j) (firstn n (map id (filter f db)))) db
    = firstn n (filter f db).
Proof.
  induction db as [| r db IH]; intros ND n; simpl.
  - now rewrite firstn_nil.
  - inversion ND as [| ? ? Hnot ND']; subst.
    destruct (f r) eqn:Fr; simpl.
    + destruct n as [| n]; simpl.
      * f_equal. clear. induction db as [| x db IH]; simpl; trivial.
      * rewrite String.eqb_refl. simpl. f_equal.
        rewrite <- (IH ND' n). apply filter_ext_in.
        intros x Hx. destruct (String.eqb_spec (id x) (id r)) as [E | _]; trivial.
        exfalso. apply Hnot. rewrite <- E. now apply in_map.
    + assert (Hr : mem (id r) (firstn n (map id (filter f db))) = false).
      { apply mem_false. intros Hin. apply Hnot.
        apply firstn_In in Hin. apply in_map_iff in Hin.
        destruct Hin as (x & E & Hx). apply filter_In in Hx.
        rewrite <- E. apply in_map. tauto. }
      rewrite Hr. now apply IH.
Qed.

Lemma nextJobs_inv now p db db' jobs :
  nextJobs now p db = Some (db', jobs) ->
  0 <= nj_limit p
  /\ db' = update_claimed now (nj_machineId p) (selected_ids p db) db
  /\ jobs = returning (selected_ids p db) db'.
Proof.
  unfold nextJobs. destruct (nj_limit p <? 0) eqn:L; [discriminate |].
  intros H. inversion H; subst. apply Z.ltb_ge in L. auto.
Qed.

Lemma nextJobs_claimed_rows now p db db' jobs :
  nextJobs now p db = Some (db', jobs) ->
  NoDup (map id db) ->
  claimed_ids jobs
  = map id (firstn (Z.to_nat (nj_limit p)) (filter (selectable p) db)).
Proof.
  intros H ND. apply nextJobs_inv in H. destruct H as (_ & -> & ->).
  rewrite returning_ids. unfold selected_ids.
  now rewrite filter_selected_firstn.
Qed.

(** Without any assumption on the ids: an id is handed out exactly when it
    was selected. *)
Lemma nextJobs_claimed_selected now p db db' jobs x :
  nextJobs now p db = Some (db', jobs) ->
  In x (claimed_ids jobs) <-> In x (selected_ids p db).
Proof.
  intros H. apply nextJobs_inv in H. destruct H as (_ & -> & ->).
  rewrite returning_ids, in_map_iff. split.
  - intros (j & <- & Hj). apply filter_In in Hj. now apply mem_In.
  - intros Hx. assert (Hx' := Hx). unfold selected_ids in Hx'.
    apply firstn_In, in_map_iff in Hx'. destruct Hx' as (j & <- & Hj).
    apply filter_In in Hj. exists j. split; trivial.
    apply filter_In. split; [tauto | now apply mem_In].
Qed.

Lemma Forall2_map_in {A B} (R : A -> B -> Prop) (g : A -> B) (l : list A) :
  (forall x, In x l -> R x (g x)) -> Forall2 R l (map g l).
Proof.
  induction l as [| a l IH]; simpl; intros H; constructor.
  - apply H. now left.
  - apply IH. intros x Hx. apply H. now right.
Qed.

Lemma claim_claimed_from now m j : claimed_from now m j (claim now m j).
Proof. constructor; reflexivity. Qed.

Lemma sorted_filter {A} (R : A -> A -> Prop) (f : A -> bool) (l : list A) :
  StronglySorted R l -> StronglySorted R (filter f l).
Proof.
  induction 1 as [| a l _ IH Hall]; simpl; [constructor |].
  destruct (f a); trivial. constructor; trivial.
  rewrite Forall_forall in *. intros x Hx. apply Hall.
  apply filter_In in Hx. tauto.
Qed.

Lemma sorted_app_lt {A} (R : A -> A -> Prop) (l1 l2 : list A) (a b : A) :
  StronglySorted R (l1 ++ l2) -> In a l1 -> In b l2 -> R a b.
Proof.
  induction l1 as [| x l1 IH]; simpl; [tauto |].
  intros S [-> | Ha] Hb; apply StronglySorted_inv in S; destruct S as [S Hall].
  - rewrite Forall_forall in Hall. apply Hall, in_or_app. now right.
  - now apply IH.
Qed.

Ltac distinct_ids := repeat constructor; simpl; intuition discriminate.

(** ** The model at work *)

Example nextJobs_in_order :
  nextJobs 5000 (Fixtures.worker 10) Fixtures.in_order
  = Some ([claim 5000 "m1" (Fixtures.job "01A" pending 2);
           claim 5000 "m1" (Fixtures.job "01B" failure 1);
           Fixtures.job "01C" failure 0],
          [{| job_id := "01A"; targetFn := "hello"; targetArgs := "[]" |};
           {| job_id := "01B"; targetFn := "hello"; targetArgs := "[]" |}]).
Proof. reflexivity. Qed.

Example nextJobs_negative_limit :
  nextJobs 5000 (Fixtures.worker (-1)) Fixtures.in_order = None.
Proof. reflexivity. Qed.

Example createJob_cache_expired :
  createJob (Fixtures.at_time 100000 "01C")
    (Fixtures.hello (Fixtures.with_cache "k" 60)) Fixtures.tied
  = Some (Fixtures.tied
            ++ [row_of_values 100000 "01C"
                  {| v_id := "01C"; v_target_fn := "hello";
                     v_target_args := "[]"; v_status := pending;
                     v_owner_hash := "cluster-1"; v_deployment_id := None;
                     v_service := "greeter"; v_cache_key := Some "k";
                     v_remaining_attempts := 2;
                     v_timeout_interval_seconds := None |}],
          "01C").
Proof. reflexivity. Qed.

Example createJob_not_operational :
  createJob {| now := 1000; db_now := 1000; ulid := "01A";
               idempotency_key_default := Some "01A"; operational := false |}
    (Fixtures.hello None) []
  = None.
Proof. reflexivity. Qed.

Example getJobStatuses_third_read :
  getJobStatuses 41 Fixtures.succeeds_at_2 ["01A"; "01Z"] "cluster-1" None
  = Some ([{| js_id := "01A"; js_service := "greeter"; js_status := success;
              js_result := Some "42"; js_resultType := Some resolution |}],
          [DbRead 0; Sleep 500; DbRead 1; Sleep 500; DbRead 2]).
Proof. reflexivity. Qed.

Example getJobStatuses_times_out :
  match getJobStatuses 41 (Fixtures.still [Fixtures.job "01A" pending 2])
          ["01A"] "cluster-1" None with
  | Some (jobs, acts) =>
      map js_status jobs = [pending] /\ List.length acts = 80%nat
  | None => False
  end.
Proof. vm_compute. split; reflexivity. Qed.

Example getJobStatuses_other_cluster :
  getJobStatuses 41 (Fixtures.still Fixtures.tied) ["01A"] "cluster-2" (Some 1)
  = Some ([], [DbRead 0; Sleep 500]).
Proof. reflexivity. Qed.

Example poll_success_resets :
  poll (new_agent None)
    (Fixtures.errors 5 ++ [{| completed := 0; answer := Http 200 2 |}]
     ++ Fixtures.errors 10)
  = Polling {| errorCount := 10; idleCycleCount := 0; aborted := false;
               pollingAborted := false; current := 2; concurrency := 100;
               maxIdleCycles := None |}.
Proof. reflexivity. Qed.

Example poll_idle_shutdown :
  poll (new_agent (Some 2%nat))
    [{| completed := 0; answer := Http 200 0 |};
     {| completed := 0; answer := Http 200 0 |};
     {| completed := 0; answer := Http 200 5 |}]
  = Stopped {| errorCount := 0; idleCycleCount := 2; aborted := true;
               pollingAborted := true; current := 0; concurrency := 100;
               maxIdleCycles := Some 2%nat |}.
Proof. reflexivity. Qed.

(** ** The dispatcher: [nextJobs] *)

(** A poll with a limit the store accepts goes through. *)
Lemma nextJobs_returns now p db :
  0 <= nj_limit p ->
  nextJobs now p db
  = Some (update_claimed now (nj_machineId p) (selected_ids p db) db,
          returning (selected_ids p db)
            (update_claimed now (nj_machineId p) (selected_ids p db) db)).
Proof.
  intros L. unfold nextJobs.
  destruct (Z.ltb_spec (nj_limit p) 0); [lia | reflexivity].
Qed.

(** C1, as the source has it.  A poll hands out a row only if the row is of
    the polling cluster and service and is either pending (whatever its
    attempts) or failure with attempts left; when the limit covers the
    selectable rows every such row is handed out; a failure row without
    attempts is never handed out; a row handed out is in the table
    afterwards as a running row. *)
Theorem nextJobs_claims_selectable :
  forall now p db,
    0 <= nj_limit p ->
    NoDup (map id db) ->
    exists db' jobs,
      nextJobs now p db = Some (db', jobs)
      /\ forall j, In j db ->
           (In (id j) (claimed_ids jobs) -> Selectable p j)
           /\ (Z.of_nat (List.length (filter (selectable p) db)) <= nj_limit p ->
               Selectable p j -> In (id j) (claimed_ids jobs))
           /\ (status j = failure -> remaining_attempts j <= 0 ->
               ~ In (id j) (claimed_ids jobs))
           /\ (In (id j) (claimed_ids jobs) ->
               In (claim now (nj_machineId p) j) db'
               /\ status (claim now (nj_machineId p) j) = running).
Proof.
  intros now p db L ND.
  pose proof (nextJobs_returns now p db L) as H.
  do 2 eexists. split; [exact H |]. intros j Hj.
  assert (Only : In (id j) (claimed_ids
                   (returning (selected_ids p db)
                      (update_claimed now (nj_machineId p) (selected_ids p db) db)))
                 -> Selectable p j).
  { rewrite (nextJobs_claimed_rows _ _ _ _ _ H ND), in_map_iff.
    intros (r & E & Hr). apply firstn_In, filter_In in Hr.
    destruct Hr as [Hr Sel].
    rewrite <- (unique_id_row db r j ND Hr Hj E). now apply selectable_iff. }
  split; [exact Only | split; [| split]].
  - intros Hlim Sel.
    rewrite (nextJobs_claimed_rows _ _ _ _ _ H ND).
    rewrite firstn_all2 by lia.
    apply in_map, filter_In. split; [assumption | now apply selectable_iff].
  - intros Hf Hz Hin. destruct (Only Hin) as [[Hp | [_ Hpos]] _].
    + congruence.
    + lia.
  - intros Hin. split; [| reflexivity].
    apply (nextJobs_claimed_selected _ _ _ _ _ _ H), mem_In in Hin.
    unfold update_claimed. apply in_map_iff. exists j. now rewrite Hin.
Qed.

Lemma nextJobs_claims_selectable_witness :
  let db := Fixtures.in_order in
  let p := Fixtures.worker 10 in
  0 <= nj_limit p
  /\ NoDup (map id db)
  /\ exists db' jobs,
       nextJobs 5000 p db = Some (db', jobs)
       /\ forall j, In j db ->
            (In (id j) (claimed_ids jobs) -> Selectable p j)
            /\ (Z.of_nat (List.length (filter (selectable p) db)) <= nj_limit p ->
                Selectable p j -> In (id j) (claimed_ids jobs))
            /\ (status j = failure -> remaining_attempts j <= 0 ->
                ~ In (id j) (claimed_ids jobs))
            /\ (In (id j) (claimed_ids jobs) ->
                In (claim 5000 (nj_machineId p) j) db'
                /\ status (claim 5000 (nj_machineId p) j) = running).
Proof.
  intros db p.
  assert (L : 0 <= nj_limit p) by (simpl; lia).
  assert (ND : NoDup (map id db)) by distinct_ids.
  split; [exact L | split; [exact ND |]].
  exact (nextJobs_claims_selectable 5000 p db L ND).
Defined.

(** Against C1 as stated.  A pending row with no attempt left is handed out
    all the same, and leaves the poll with [-1] attempts. *)
Lemma nextJobs_claims_pending_without_attempts :
  status Fixtures.spent = pending
  /\ remaining_attempts Fixtures.spent = 0
  /\ nextJobs 5000 (Fixtures.worker 1) [Fixtures.spent]
     = Some ([claim 5000 "m1" Fixtures.spent],
             [{| job_id := "01A"; targetFn := "hello"; targetArgs := "[]" |}])
  /\ status (claim 5000 "m1" Fixtures.spent) = running
  /\ remaining_attempts (claim 5000 "m1" Fixtures.spent) = -1.
Proof. repeat split. Qed.

(** C2.  One poll rewrites the table row by row in a single step: a row
    whose id is handed out gets [status], [remaining_attempts],
    [last_retrieved_at] and [executing_machine_id] set and keeps every other
    column ([target_args] and [service] among them); any other row is kept
    as it is; each job handed out is the projection of such a row. *)
Theorem nextJobs_claim_sets_four_fields :
  forall now p db,
    0 <= nj_limit p ->
    exists db' jobs,
      nextJobs now p db = Some (db', jobs)
      /\ Forall2 (fun j j' =>
                    if mem (id j) (claimed_ids jobs)
                    then claimed_from now (nj_machineId p) j j'
                    else j' = j) db db'
      /\ forall r, In r jobs ->
           exists j, In j db /\ job_id r = id j
                     /\ targetFn r = target_fn j
                     /\ targetArgs r = target_args j.
Proof.
  intros now p db L.
  pose proof (nextJobs_returns now p db L) as H.
  do 2 eexists. split; [exact H |]. split.
  - unfold update_claimed at 2. apply Forall2_map_in. intros j _.
    match goal with |- context [mem (id j) (claimed_ids ?js)] =>
      assert (M : mem (id j) (claimed_ids js) = mem (id j) (selected_ids p db))
    end.
    { destruct (mem (id j) (selected_ids p db)) eqn:E.
      - apply mem_In, (nextJobs_claimed_selected _ _ _ _ _ _ H).
        now apply mem_In.
      - apply mem_false. intros Hin. apply mem_false in E. apply E.
        now apply (nextJobs_claimed_selected _ _ _ _ _ _ H). }
    rewrite M.
    destruct (mem (id j) (selected_ids p db));
      [apply claim_claimed_from | reflexivity].
  - intros r Hr. unfold returning in Hr.
    apply in_map_iff in Hr. destruct Hr as (j' & <- & Hj').
    apply filter_In in Hj'. destruct Hj' as [Hj' _].
    unfold update_claimed in Hj'.
    apply in_map_iff in Hj'. destruct Hj' as (j & <- & Hj).
    exists j. split; trivial.
    now destruct (mem (id j) (selected_ids p db)).
Qed.

Lemma nextJobs_claim_sets_four_fields_witness :
  let db := Fixtures.in_order in
  let p := Fixtures.worker 1 in
  0 <= nj_limit p
  /\ exists db' jobs,
       nextJobs 5000 p db = Some (db', jobs)
       /\ Forall2 (fun j j' =>
                     if mem (id j) (claimed_ids jobs)
                     then claimed_from 5000 (nj_machineId p) j j'
                     else j' = j) db db'
       /\ forall r, In r jobs ->
            exists j, In j db /\ job_id r = id j
                      /\ targetFn r = target_fn j
                      /\ targetArgs r = target_args j.
Proof.
  intros db p.
  assert (L : 0 <= nj_limit p) by (simpl; lia).
  split; [exact L |].
  exact (nextJobs_claim_sets_four_fields 5000 p db L).
Defined.

(** A poll under a plan that visits the rows in the order [scan]. *)
Lemma nextJobs_by_returns scan now p db :
  0 <= nj_limit p ->
  Scan.nextJobs_by scan now p db
  = Some (update_claimed now (nj_machineId p) (selected_ids p scan) db,
          returning (selected_ids p scan)
            (update_claimed now (nj_machineId p) (selected_ids p scan) db)).
Proof.
  intros L. unfold Scan.nextJobs_by.
  destruct (Z.ltb_spec (nj_limit p) 0); [lia | reflexivity].
Qed.

Lemma nextJobs_by_list now p db :
  Scan.nextJobs_by db now p db = nextJobs now p db.
Proof. reflexivity. Qed.

(** The ids handed out are the ids the inner SELECT yielded. *)
Lemma claimed_by_scan scan now m p db x :
  Permutation scan db ->
  In x (claimed_ids
          (returning (selected_ids p scan)
             (update_claimed now m (selected_ids p scan) db)))
  <-> In x (selected_ids p scan).
Proof.
  intros P. rewrite returning_ids, in_map_iff. split.
  - intros (j & <- & Hj). apply filter_In in Hj. now apply mem_In.
  - intros Hx. assert (Hx' := Hx). unfold selected_ids in Hx'.
    apply firstn_In, in_map_iff in Hx'. destruct Hx' as (j & <- & Hj).
    apply filter_In in Hj. exists j. split; trivial.
    apply filter_In. split; [| now apply mem_In].
    apply (Permutation_in _ P). tauto.
Qed.

(** C3, as the source has it.  The inner SELECT has a LIMIT and no ORDER
    BY.  Whatever the order in which the plan of the store visits the rows,
    a poll hands out selectable rows of its cluster and service, each once:
    all of them when there are at most [limit], and [limit] of them
    otherwise, so that a selectable row is left behind only when [limit]
    rows were handed out.  Which rows those are follows the order of the
    plan, not the ids: they are the first [limit] selectable rows the plan
    visits.  When the plan visits the rows in increasing id order, every row
    handed out has a smaller id than every selectable row left behind. *)
Theorem nextJobs_claims_by_plan :
  forall scan now p db,
    0 <= nj_limit p ->
    NoDup (map id db) ->
    Permutation scan db ->
    exists db' jobs,
      Scan.nextJobs_by scan now p db = Some (db', jobs)
      /\ NoDup (claimed_ids jobs)
      /\ (forall j, In j db -> In (id j) (claimed_ids jobs) -> Selectable p j)
      /\ List.length jobs
         = Nat.min (Z.to_nat (nj_limit p))
                   (List.length (filter (selectable p) db))
      /\ (forall j, In j db -> Selectable p j ->
                    ~ In (id j) (claimed_ids jobs) ->
                    List.length jobs = Z.to_nat (nj_limit p))
      /\ (forall x, In x (claimed_ids jobs)
                    <-> In x (map id (firstn (Z.to_nat (nj_limit p))
                                        (filter (selectable p) scan))))
      /\ (StronglySorted id_lt scan ->
          forall j1 j2,
            In j1 db -> In j2 db ->
            In (id j1) (claimed_ids jobs) ->
            Selectable p j2 -> ~ In (id j2) (claimed_ids jobs) ->
            id_lt j1 j2).
Proof.
  intros scan now p db L ND P.
  pose proof (nextJobs_by_returns scan now p db L) as H.
  do 2 eexists. split; [exact H |].
  set (n := Z.to_nat (nj_limit p)).
  set (F := filter (selectable p) scan).
  set (jobs := returning (selected_ids p scan)
                 (update_claimed now (nj_machineId p) (selected_ids p scan) db)).
  assert (NDs : NoDup (map id scan)).
  { apply (Permutation_NoDup (l := map id db)); trivial.
    apply Permutation_map. now apply Permutation_sym. }
  assert (Ids : selected_ids p scan = map id (firstn n F)).
  { unfold selected_ids. now rewrite firstn_map. }
  assert (Mem : forall x, In x (claimed_ids jobs) <-> In x (map id (firstn n F))).
  { intros x. rewrite <- Ids. now apply claimed_by_scan. }
  assert (NDc : NoDup (claimed_ids jobs)).
  { unfold jobs. rewrite returning_ids. now apply NoDup_map_filter. }
  assert (NDf : NoDup (map id (firstn n F))).
  { rewrite <- firstn_map. apply NoDup_firstn.
    now apply NoDup_map_filter. }
  assert (Len : List.length jobs
                = Nat.min n (List.length (filter (selectable p) db))).
  { transitivity (List.length (claimed_ids jobs)).
    - unfold claimed_ids. now rewrite length_map.
    - rewrite (Permutation_length (NoDup_Permutation NDc NDf Mem)).
      rewrite length_map, length_firstn. f_equal.
      apply Permutation_length. now apply Permutation_filter_same. }
  assert (Rows : forall j, In j db -> In (id j) (claimed_ids jobs) ->
                           In j (firstn n F)).
  { intros j Hj Hin. apply Mem, in_map_iff in Hin.
    destruct Hin as (r & E & Hr).
    assert (Hr' : In r scan)
      by (apply firstn_In in Hr; apply filter_In in Hr; tauto).
    assert (Hj' : In j scan)
      by (apply (Permutation_in _ (Permutation_sym P)); exact Hj).
    now rewrite <- (unique_id_row scan r j NDs Hr' Hj' E). }
  assert (Left : forall j, In j db -> Selectable p j ->
                           ~ In (id j) (claimed_ids jobs) ->
                           In j (skipn n F)).
  { intros j Hj Sel Not.
    assert (HF : In j F).
    { apply filter_In. split; [| now apply selectable_iff].
      apply (Permutation_in _ (Permutation_sym P)). exact Hj. }
    rewrite <- (firstn_skipn n F) in HF. apply in_app_or in HF.
    destruct HF as [HF | HF]; trivial.
    exfalso. apply Not, Mem. now apply in_map. }
  split; [exact NDc |]. split; [| split; [exact Len | split; [| split]]].
  - intros j Hj Hin. apply selectable_iff.
    pose proof (Rows j Hj Hin) as R. apply firstn_In, filter_In in R. tauto.
  - intros j Hj Sel Not. rewrite Len.
    pose proof (Left j Hj Sel Not) as S.
    assert (LF : List.length (filter (selectable p) db) = List.length F)
      by (apply Permutation_length, Permutation_filter_same;
          now apply Permutation_sym).
    rewrite LF.
    destruct (Nat.le_gt_cases n (List.length F)) as [Le | Gt];
      [now apply Nat.min_l |].
    rewrite skipn_all2 in S by lia. destruct S.
  - exact Mem.
  - intros Sorted j1 j2 H1 H2 C1 S2 N2.
    apply (sorted_app_lt id_lt (firstn n F) (skipn n F)).
    + rewrite firstn_skipn. now apply sorted_filter.
    + now apply Rows.
    + now apply Left.
Qed.

Lemma nextJobs_claims_by_plan_witness :
  let db := Fixtures.in_order in
  let scan := [Fixtures.job "01B" failure 1; Fixtures.job "01A" pending 2;
               Fixtures.job "01C" failure 0] in
  let p := Fixtures.worker 1 in
  0 <= nj_limit p
  /\ NoDup (map id db)
  /\ Permutation scan db
  /\ exists db' jobs,
       Scan.nextJobs_by scan 5000 p db = Some (db', jobs)
       /\ NoDup (claimed_ids jobs)
       /\ (forall j, In j db -> In (id j) (claimed_ids jobs) -> Selectable p j)
       /\ List.length jobs
          = Nat.min (Z.to_nat (nj_limit p))
                    (List.length (filter (selectable p) db))
       /\ (forall j, In j db -> Selectable p j ->
                     ~ In (id j) (claimed_ids jobs) ->
                     List.length jobs = Z.to_nat (nj_limit p))
       /\ (forall x, In x (claimed_ids jobs)
                     <-> In x (map id (firstn (Z.to_nat (nj_limit p))
                                         (filter (selectable p) scan))))
       /\ (StronglySorted id_lt scan ->
           forall j1 j2,
             In j1 db -> In j2 db ->
             In (id j1) (claimed_ids jobs) ->
             Selectable p j2 -> ~ In (id j2) (claimed_ids jobs) ->
             id_lt j1 j2).
Proof.
  intros db scan p.
  assert (L : 0 <= nj_limit p) by (simpl; lia).
  assert (ND : NoDup (map id db)) by distinct_ids.
  assert (P : Permutation scan db) by apply perm_swap.
  split; [exact L | split; [exact ND | split; [exact P |]]].
  exact (nextJobs_claims_by_plan scan 5000 p db L ND P).
Defined.

(** Against C3 as stated.  Two calls of the same cluster and service are
    pending, [01B] inserted before [01A].  A plan that scans the table in
    the order the rows were inserted, and a plan that scans the index of the
    primary key, both visit [01B] first: a poll for one job takes [01B] and
    leaves [01A], the smaller id, pending. *)
Lemma nextJobs_claims_later_id_first :
  Scan.nextJobs_by Samples.two_calls 5000 (Fixtures.worker 1) Samples.two_calls
  = Some ([claim 5000 "m1" (Samples.call "01B" "alpha");
           Samples.call "01A" "zeta"],
          [{| job_id := "01B"; targetFn := "alpha"; targetArgs := "[]" |}])
  /\ selectable (Fixtures.worker 1) (Samples.call "01A" "zeta") = true
  /\ selectable (Fixtures.worker 1) (Samples.call "01B" "alpha") = true
  /\ String.ltb "01A" "01B" = true
  /\ map pk Samples.two_calls
     = [("cluster-1", "alpha", "01B"); ("cluster-1", "zeta", "01A")]
  /\ String.ltb "alpha" "zeta" = true.
Proof.
  split; [reflexivity |]. split; [reflexivity |]. split; [reflexivity |].
  split; [reflexivity |]. split; reflexivity.
Qed.

(** ** Admission: [createJob] *)

Lemma eq_nullable_string (o : option string) (x : string) :
  match o with Some k => String.eqb k x | None => false end = true
  <-> o = Some x.
Proof.
  destruct o as [k |]; [rewrite String.eqb_eq |]; split; congruence.
Qed.

Lemma eq_nullable_resolution (o : option ResultType) :
  match o with Some t => ResultType_eqb t resolution | None => false end = true
  <-> o = Some resolution.
Proof.
  destruct o as [t |]; [rewrite ResultType_eqb_eq |]; split; congruence.
Qed.

Lemma gte_nullable (o : option Z) (threshold : Z) :
  match o with Some t => threshold <=? t | None => false end = true
  <-> exists t, o = Some t /\ threshold <= t.
Proof.
  destruct o as [t |]; [rewrite Z.leb_le |]; split.
  - intros H. exists t. auto.
  - intros (t' & E & H). congruence.
  - discriminate.
  - intros (t' & E & _). discriminate.
Qed.

Lemma cache_probe_iff cacheKey c threshold j :
  cache_probe cacheKey c threshold j = true <-> CacheHit cacheKey c threshold j.
Proof.
  unfold cache_probe, CacheHit.
  rewrite !andb_true_iff, eq_nullable_string, eq_nullable_resolution,
    gte_nullable, !String.eqb_eq, Status_eqb_eq.
  tauto.
Qed.

(** [newer] is a strict order on nullable timestamps whose complement is
    transitive. *)
Lemma newer_irrefl a : newer a a = false.
Proof. destruct a; simpl; trivial. apply Z.ltb_irrefl. Qed.

Lemma newer_asym a b : newer a b = true -> newer b a = false.
Proof.
  destruct a, b; simpl; trivial; try discriminate.
  rewrite Z.ltb_lt, Z.ltb_ge. lia.
Qed.

Lemma not_newer_trans x b a :
  newer x b = false -> newer b a = false -> newer x a = false.
Proof.
  destruct x, b, a; simpl; trivial; try discriminate.
  rewrite !Z.ltb_ge. lia.
Qed.

Lemma In_insert_desc j l x : In x (insert_desc j l) <-> x = j \/ In x l.
Proof.
  induction l as [| k l IH]; simpl.
  - intuition.
  - destruct (newer (resulted_at k) (resulted_at j)); simpl.
    + rewrite IH. intuition.
    + intuition.
Qed.

Lemma In_orderBy l x : In x (orderBy_desc_resulted_at l) <-> In x l.
Proof.
  induction l as [| a l IH]; simpl; [tauto |].
  rewrite In_insert_desc, IH. intuition.
Qed.

(** The first row of the ordered list is a row of the list that no row of
    the list is newer than. *)
Lemma orderBy_head l b rest :
  orderBy_desc_resulted_at l = b :: rest ->
  In b l /\ forall x, In x l -> newer (resulted_at x) (resulted_at b) = false.
Proof.
  revert b rest. induction l as [| a l IH]; simpl; [discriminate |].
  intros b rest.
  destruct (orderBy_desc_resulted_at l) as [| k r] eqn:E; simpl.
  - intros H. inversion H; subst. split; [now left |].
    intros x [-> | Hx]; [apply newer_irrefl |].
    apply In_orderBy in Hx. rewrite E in Hx. destruct Hx.
  - destruct (IH k r eq_refl) as [Hk Hmax].
    destruct (newer (resulted_at k) (resulted_at a)) eqn:N;
      intros H; inversion H; subst; (split; [tauto |]);
      intros x [-> | Hx].
    + now apply newer_asym.
    + now apply Hmax.
    + apply newer_irrefl.
    + eapply not_newer_trans; [apply Hmax, Hx | exact N].
Qed.

Lemma orderBy_nil l : orderBy_desc_resulted_at l = [] -> l = [].
Proof.
  destruct l as [| a l]; trivial. intros E.
  assert (H : In a (orderBy_desc_resulted_at (a :: l)))
    by (apply In_orderBy; now left).
  rewrite E in H. destruct H.
Qed.

(** What the cache probe returns: nothing when no row passes, otherwise the
    id of a passing row that no passing row is newer than. *)
Lemma cache_lookup_spec cacheKey c threshold db :
  match cache_lookup cacheKey c threshold db with
  | [] => forall j, In j db -> cache_probe cacheKey c threshold j = false
  | i :: _ =>
      exists best,
        In best db /\ cache_probe cacheKey c threshold best = true
        /\ id best = i
        /\ forall j, In j db -> cache_probe cacheKey c threshold j = true ->
                     newer (resulted_at j) (resulted_at best) = false
  end.
Proof.
  unfold cache_lookup.
  destruct (orderBy_desc_resulted_at (filter (cache_probe cacheKey c threshold) db))
    as [| b rest] eqn:E; simpl.
  - apply orderBy_nil in E. intros j Hj.
    destruct (cache_probe cacheKey c threshold j) eqn:P; trivial.
    assert (In j (filter (cache_probe cacheKey c threshold) db))
      by (apply filter_In; tauto).
    rewrite E in H. destruct H.
  - apply orderBy_head in E. destruct E as [Hb Hmax].
    apply filter_In in Hb. exists b. repeat split; try tauto.
    intros j Hj P. apply Hmax, filter_In. tauto.
Qed.

Lemma insert_job_inv db_now kd v db db' :
  insert_job db_now kd v db = Some db' ->
  exists k, kd = Some k
            /\ id_taken (v_id v) db = false
            /\ pk_taken (v_owner_hash v) (v_target_fn v) k db = false
            /\ db' = db ++ [row_of_values db_now k v].
Proof.
  unfold insert_job. destruct kd as [k |]; [| discriminate].
  destruct (id_taken (v_id v) db) eqn:I; [discriminate |].
  destruct (pk_taken (v_owner_hash v) (v_target_fn v) k db) eqn:P;
    [discriminate |].
  intros H. inversion H; subst. exists k. auto.
Qed.

Lemma id_taken_false x db : id_taken x db = false -> ~ In x (map id db).
Proof.
  unfold id_taken. intros H Hin. apply in_map_iff in Hin.
  destruct Hin as (j & E & Hj).
  assert (T : existsb (fun j => String.eqb (id j) x) db = true).
  { apply existsb_exists. exists j. split; trivial. now apply String.eqb_eq. }
  congruence.
Qed.

(** The unique constraint on [id] holds of every table the two statements
    leave behind. *)
Lemma insert_job_unique_ids db_now kd v db db' :
  NoDup (map id db) ->
  insert_job db_now kd v db = Some db' ->
  NoDup (map id db').
Proof.
  intros ND H. apply insert_job_inv in H.
  destruct H as (k & _ & Hid & _ & ->).
  rewrite map_app. simpl. apply NoDup_app; trivial.
  - constructor; [simpl; tauto | constructor].
  - intros x Hx [<- | []]. now apply (id_taken_false _ _ Hid).
Qed.

Lemma nextJobs_unique_ids now p db db' jobs :
  NoDup (map id db) ->
  nextJobs now p db = Some (db', jobs) ->
  NoDup (map id db').
Proof.
  intros ND H. apply nextJobs_inv in H. destruct H as (_ & -> & _).
  now rewrite update_claimed_ids.
Qed.

(** An admission that inserts appends one row built from the strategy
    parameters; its id is the fresh [ulid()] and was not in the table. *)
Lemma default_inv e c db db' i :
  default e c db = Some (db', i) ->
  i = ulid e /\ ~ In i (map id db)
  /\ exists row, db' = db ++ [row] /\ id row = i
                 /\ owner_hash row = s_clusterId c
                 /\ target_fn row = s_targetFn c
                 /\ idempotency_key_default e = Some (idempotency_key row)
                 /\ cache_key row = None
                 /\ status row = pending
                 /\ remaining_attempts row = nullish (s_maxAttempts c) 1.
Proof.
  unfold default.
  match goal with |- context [insert_job ?a ?b ?v db] =>
    destruct (insert_job a b v db) as [t |] eqn:E end; [| discriminate].
  intros H. inversion H; subst. apply insert_job_inv in E.
  destruct E as (k & Ek & Hid & _ & ->). simpl in Hid.
  split; trivial. split; [now apply id_taken_false |].
  eexists. split; [reflexivity |]. simpl. repeat split; trivial.
Qed.

Lemma cached_inv e c cacheKey ttl db db' i :
  cached e c cacheKey ttl db = Some (db', i) ->
  db' = db
  \/ exists row, db' = db ++ [row] /\ id row = i /\ i = ulid e
                 /\ cache_key row = Some cacheKey
                 /\ status row = pending
                 /\ remaining_attempts row = nullish (s_maxAttempts c) 1.
Proof.
  unfold cached.
  destruct (cache_lookup cacheKey c (now e - ttl * 1000) db) as [| j rest].
  - match goal with |- context [insert_job ?a ?b ?v db] =>
      destruct (insert_job a b v db) as [t |] eqn:E end; [| discriminate].
    intros H. inversion H; subst. apply insert_job_inv in E.
    destruct E as (k & _ & _ & _ & ->). right.
    eexists. split; [reflexivity |]. simpl. repeat split; trivial.
  - intros H. inversion H. now left.
Qed.

Lemma pk_taken_false o f k db :
  pk_taken o f k db = false -> ~ In (o, f, k) (map pk db).
Proof.
  unfold pk_taken. intros H Hin. apply in_map_iff in Hin.
  destruct Hin as (j & E & Hj). unfold pk in E. inversion E; subst.
  assert (T : existsb (fun j0 => String.eqb (owner_hash j0) (owner_hash j)
                                 && String.eqb (target_fn j0) (target_fn j)
                                 && String.eqb (idempotency_key j0)
                                      (idempotency_key j)) db = true).
  { apply existsb_exists. exists j. split; trivial.
    now rewrite !String.eqb_refl. }
  congruence.
Qed.

Lemma NoDup_snoc {A} (l : list A) (x : A) :
  NoDup l -> ~ In x l -> NoDup (l ++ [x]).
Proof.
  intros ND Hx. apply NoDup_app; trivial.
  - constructor; [simpl; tauto | constructor].
  - intros a Ha [<- | []]. contradiction.
Qed.

(** The two ways an admission completes: a cache hit that leaves the table
    alone, or one appended row under the fresh id. *)
Lemma createJob_cases e p db db' i :
  createJob e p db = Some (db', i) ->
  (db' = db
   /\ exists c best,
        cache_requested p = Some c /\ In best db /\ id best = i
        /\ CacheHit (key c) (strategy_params p)
             (now e - ttlSeconds c * 1000) best)
  \/ (exists k,
        idempotency_key_default e = Some k
        /\ i = ulid e
        /\ ~ In i (map id db)
        /\ ~ In (p_clusterId p, p_targetFn p, k) (map pk db)
        /\ db' = db ++ [admitted_row e p k]).
Proof.
  unfold createJob. destruct (operational e); [| discriminate].
  destruct (cache_requested p) as [c |] eqn:C.
  - unfold cached.
    pose proof (cache_lookup_spec (key c) (strategy_params p)
                  (now e - ttlSeconds c * 1000) db) as L.
    destruct (cache_lookup (key c) (strategy_params p)
                (now e - ttlSeconds c * 1000) db) as [| x rest].
    + match goal with |- context [insert_job ?a ?b ?v db] =>
        destruct (insert_job a b v db) as [t |] eqn:I end; [| discriminate].
      intros H. inversion H; subst. apply insert_job_inv in I.
      destruct I as (k & Ek & Hid & Hpk & ->). right. exists k.
      split; [exact Ek | split; [reflexivity |]].
      split; [now apply id_taken_false |].
      split; [now apply pk_taken_false |].
      unfold admitted_row. now rewrite C.
    + intros H. inversion H; subst. left. split; trivial.
      destruct L as (best & Hb & Pb & Eb & _).
      exists c, best.
      split; [reflexivity | split; [exact Hb | split; [exact Eb |]]].
      now apply cache_probe_iff.
  - unfold default.
    match goal with |- context [insert_job ?a ?b ?v db] =>
      destruct (insert_job a b v db) as [t |] eqn:I end; [| discriminate].
    intros H. inversion H; subst. apply insert_job_inv in I.
    destruct I as (k & Ek & Hid & Hpk & ->). right. exists k.
    split; [exact Ek | split; [reflexivity |]].
    split; [now apply id_taken_false |].
    split; [now apply pk_taken_false |].
    unfold admitted_row. now rewrite C.
Qed.

(** Whatever the store puts in the key column, two admissions that do not
    use the cache and both complete leave two rows with two ids and two
    different keys: the second never answers with the id of the first. *)
Lemma createJob_twice_two_rows e1 e2 p db db1 i1 db2 i2 :
  cache_requested p = None ->
  createJob e1 p db = Some (db1, i1) ->
  createJob e2 p db1 = Some (db2, i2) ->
  i2 <> i1
  /\ exists r1 r2, db2 = db ++ [r1; r2] /\ id r1 = i1 /\ id r2 = i2.
Proof.
  unfold createJob. intros C.
  destruct (operational e1); [| discriminate].
  destruct (operational e2); [| discriminate].
  rewrite C. intros H1 H2.
  apply default_inv in H1. destruct H1 as (_ & _ & r1 & -> & E1 & _).
  apply default_inv in H2. destruct H2 as (_ & Hfresh & r2 & -> & E2 & _).
  split.
  - intros ->. apply Hfresh. rewrite map_app. apply in_or_app. right.
    simpl. now left.
  - exists r1, r2. rewrite <- app_assoc. auto.
Qed.






Lemma id_taken_true x db : id_taken x db = true -> In x (map id db).
Proof.
  unfold id_taken. intros H. apply existsb_exists in H.
  destruct H as (j & Hj & E). apply String.eqb_eq in E.
  rewrite <- E. now apply in_map.
Qed.

(** The three ways the store turns a row down. *)
Lemma insert_job_none db_now kd v db :
  insert_job db_now kd v db = None ->
  kd = None
  \/ In (v_id v) (map id db)
  \/ exists k, kd = Some k
               /\ pk_taken (v_owner_hash v) (v_target_fn v) k db = true.
Proof.
  unfold insert_job. destruct kd as [k |]; [| now left].
  destruct (id_taken (v_id v) db) eqn:I.
  - intros _. right. left. now apply id_taken_true.
  - destruct (pk_taken (v_owner_hash v) (v_target_fn v) k db) eqn:P;
      [| discriminate].
    intros _. right. right. exists k. auto.
Qed.

(** C5.  An admission in an operational cluster completes unless the store
    turns the new row down.  A row it inserts starts with
    [1 + retryCountOnStall] attempts, and with 2 when the caller gives no
    [retryCountOnStall]; an admission that completes without inserting is a
    cache hit and leaves the table as it was. *)
Theorem createJob_remaining_attempts :
  forall e p db,
    operational e = true ->
    match createJob e p db with
    | Some (db', i) =>
        (db' = db /\ cache_requested p <> None)
        \/ exists row, db' = db ++ [row] /\ id row = i
                       /\ status row = pending
                       /\ remaining_attempts row = attempts_of p
    | None =>
        idempotency_key_default e = None
        \/ In (ulid e) (map id db)
        \/ exists k, idempotency_key_default e = Some k
                     /\ pk_taken (p_clusterId p) (p_targetFn p) k db = true
    end.
Proof.
  intros e p db Op.
  assert (A : nullish (s_maxAttempts (strategy_params p)) 1 = attempts_of p).
  { unfold attempts_of, strategy_params, DEFAULT_RETRY_COUNT_ON_STALL.
    cbn [s_maxAttempts].
    destruct (chain (p_callConfig p) retryCountOnStall); unfold nullish; lia. }
  destruct (createJob e p db) as [[db' i] |] eqn:H;
    unfold createJob in H; rewrite Op in H;
    destruct (cache_requested p) as [c |] eqn:C.
  - apply cached_inv in H.
    destruct H as [-> | (row & -> & Hi & _ & _ & Hs & Hr)].
    + left. split; [reflexivity | discriminate].
    + right. exists row. rewrite Hr, A. auto.
  - apply default_inv in H.
    destruct H as (_ & _ & row & -> & Hi & _ & _ & _ & _ & Hs & Hr).
    right. exists row. rewrite Hr, A. auto.
  - unfold cached in H.
    destruct (cache_lookup (key c) (strategy_params p)
                (now e - ttlSeconds c * 1000) db); [| discriminate].
    match type of H with context [insert_job ?a ?b ?v db] =>
      destruct (insert_job a b v db) eqn:I end; [discriminate |].
    exact (insert_job_none _ _ _ _ I).
  - unfold default in H.
    match type of H with context [insert_job ?a ?b ?v db] =>
      destruct (insert_job a b v db) eqn:I end; [discriminate |].
    exact (insert_job_none _ _ _ _ I).
Qed.

Lemma createJob_remaining_attempts_witness :
  let e := Fixtures.at_time 1000 "01A" in
  let p := Fixtures.hello (Fixtures.with_retries 3) in
  operational e = true
  /\ createJob e p [] = Some ([Fixtures.job "01A" pending 4], "01A")
  /\ ((([Fixtures.job "01A" pending 4] : Table) = [] /\ cache_requested p <> None)
      \/ exists row, [Fixtures.job "01A" pending 4] = [] ++ [row]
                     /\ id row = "01A"
                     /\ status row = pending
                     /\ remaining_attempts row = attempts_of p).
Proof.
  intros e p.
  assert (Op : operational e = true) by reflexivity.
  assert (H : createJob e p [] = Some ([Fixtures.job "01A" pending 4], "01A"))
    by reflexivity.
  split; [exact Op | split; [exact H |]].
  pose proof (createJob_remaining_attempts e p [] Op) as T.
  rewrite H in T. exact T.
Defined.

Lemma id_taken_fresh x db : ~ In x (map id db) -> id_taken x db = false.
Proof.
  unfold id_taken. intros H.
  destruct (existsb (fun j => String.eqb (id j) x) db) eqn:E; trivial.
  exfalso. apply H. apply existsb_exists in E. destruct E as (j & Hj & E).
  apply String.eqb_eq in E. rewrite <- E. now apply in_map.
Qed.

(** C6, as the source has it.  An admission that asks for the cache with a
    non-empty key and a non-zero ttl probes the table for the rows of the
    same cluster, service, function and cache key that are successful
    resolutions resulted at or after [now - ttl].  If there is one, the
    admission answers with the id of one that resulted latest and inserts
    nothing; the ORDER BY has [resulted_at] as its only key.  If there is
    none, and the store accepts the row, a pending row with the fresh id and
    the cache key is appended and the fresh id is the answer. *)
Theorem createJob_cached_probe_then_insert :
  forall e p c db,
    operational e = true ->
    cache_requested p = Some c ->
    let sp := strategy_params p in
    let threshold := now e - ttlSeconds c * 1000 in
    ((exists j, In j db /\ CacheHit (key c) sp threshold j) ->
     exists best t,
       In best db /\ CacheHit (key c) sp threshold best
       /\ resulted_at best = Some t
       /\ (forall j t', In j db -> CacheHit (key c) sp threshold j ->
                        resulted_at j = Some t' -> t' <= t)
       /\ createJob e p db = Some (db, id best))
    /\ ((forall j, In j db -> ~ CacheHit (key c) sp threshold j) ->
        forall k,
          idempotency_key_default e = Some k ->
          ~ In (ulid e) (map id db) ->
          pk_taken (p_clusterId p) (p_targetFn p) k db = false ->
          exists row,
            createJob e p db = Some (db ++ [row], ulid e)
            /\ id row = ulid e /\ status row = pending
            /\ cache_key row = Some (key c)
            /\ owner_hash row = p_clusterId p /\ service row = p_service p
            /\ target_fn row = p_targetFn p
            /\ target_args row = p_targetArgs p).
Proof.
  intros e p c db Op C sp threshold. unfold createJob. rewrite Op, C.
  unfold cached. fold sp. fold threshold.
  pose proof (cache_lookup_spec (key c) sp threshold db) as L.
  split.
  - intros (j & Hj & Hit).
    destruct (cache_lookup (key c) sp threshold db) as [| i rest].
    + apply cache_probe_iff in Hit. rewrite (L j Hj) in Hit. discriminate.
    + destruct L as (best & Hb & Pb & <- & Hmax).
      pose proof Pb as Cb. apply cache_probe_iff in Cb.
      destruct Cb as (_ & _ & _ & _ & _ & _ & t & Et & _).
      exists best, t.
      split; [exact Hb |].
      split; [apply cache_probe_iff, Pb |].
      split; [exact Et |].
      split; [| reflexivity].
      intros j' t' Hj' Hit' Et'. apply cache_probe_iff in Hit'.
      specialize (Hmax j' Hj' Hit'). rewrite Et, Et' in Hmax. simpl in Hmax.
      apply Z.ltb_ge in Hmax. exact Hmax.
  - intros Miss k Ek Fresh Pk.
    destruct (cache_lookup (key c) sp threshold db) as [| i rest].
    + unfold insert_job. rewrite Ek. cbn [v_id v_owner_hash v_target_fn].
      rewrite (id_taken_fresh _ _ Fresh).
      unfold sp at 1 2. cbn [strategy_params s_clusterId s_targetFn].
      rewrite Pk. eexists. split; [reflexivity |]. simpl. repeat split.
    + destruct L as (best & Hb & Pb & _). exfalso.
      apply (Miss best Hb). now apply cache_probe_iff.
Qed.

Lemma createJob_cached_probe_then_insert_witness :
  let e := Fixtures.at_time 10000 "01C" in
  let p := Fixtures.hello (Fixtures.with_cache "k" 60) in
  let c := {| key := "k"; ttlSeconds := 60 |} in
  operational e = true
  /\ cache_requested p = Some c
  /\ exists best t,
       In best Fixtures.tied
       /\ CacheHit "k" (strategy_params p) (10000 - 60 * 1000) best
       /\ resulted_at best = Some t
       /\ (forall j t', In j Fixtures.tied ->
                        CacheHit "k" (strategy_params p) (10000 - 60 * 1000) j ->
                        resulted_at j = Some t' -> t' <= t)
       /\ createJob e p Fixtures.tied = Some (Fixtures.tied, id best).
Proof.
  intros e p c.
  assert (Op : operational e = true) by reflexivity.
  assert (C : cache_requested p = Some c) by reflexivity.
  split; [exact Op | split; [exact C |]].
  apply (proj1 (createJob_cached_probe_then_insert e p c Fixtures.tied Op C)).
  exists (Fixtures.resolved_at "01A" "k" 9000). split; [simpl; tauto |].
  apply cache_probe_iff. reflexivity.
Defined.

(** Against C6 as stated.  Two cached results tie on [resulted_at]: the
    admission answers with the one stored first, the smaller id here, and
    with the other one when the two rows are stored the other way round. *)
Lemma createJob_cached_tie_not_by_id :
  createJob (Fixtures.at_time 10000 "01C")
    (Fixtures.hello (Fixtures.with_cache "k" 60)) Fixtures.tied
  = Some (Fixtures.tied, "01A")
  /\ createJob (Fixtures.at_time 10000 "01C")
       (Fixtures.hello (Fixtures.with_cache "k" 60)) (rev Fixtures.tied)
     = Some (rev Fixtures.tied, "01B")
  /\ resulted_at (Fixtures.resolved_at "01A" "k" 9000)
     = resulted_at (Fixtures.resolved_at "01B" "k" 9000)
  /\ String.ltb "01A" "01B" = true.
Proof. repeat split. Qed.

(** ** Status long-poll: [getJobStatuses] *)

Lemma hasResolved_iff jobs : hasResolved jobs = true <-> Resolved jobs.
Proof.
  unfold hasResolved, Resolved. rewrite existsb_exists.
  split; intros (r & Hr & H); exists r; split; trivial.
  - apply orb_true_iff in H. now rewrite !Status_eqb_eq in H.
  - apply orb_true_iff. now rewrite !Status_eqb_eq.
Qed.

Lemma hasResolved_false jobs : hasResolved jobs = false <-> ~ Resolved jobs.
Proof.
  rewrite <- hasResolved_iff. destruct (hasResolved jobs); split; congruence.
Qed.

(** The rows of a read are the rows of the caller's cluster whose id was
    asked for. *)
Lemma select_statuses_ids clusterId jobIds db x :
  In x (map js_id (select_statuses clusterId jobIds db))
  <-> In x jobIds
      /\ exists j, In j db /\ id j = x /\ owner_hash j = clusterId.
Proof.
  unfold select_statuses. rewrite map_map. simpl. rewrite in_map_iff. split.
  - intros (j & <- & Hj). apply filter_In in Hj. destruct Hj as [Hj F].
    apply andb_true_iff in F. destruct F as [O M].
    apply String.eqb_eq in O. apply mem_In in M. eauto.
  - intros (Hx & j & Hj & <- & O). exists j. split; trivial.
    apply filter_In. split; trivial. apply andb_true_iff. split.
    + now apply String.eqb_eq.
    + now apply mem_In.
Qed.

Lemma clock_advances w :
  (forall n, clock w n + 500 <= clock w (S n)) ->
  forall n, clock w 0 + 500 * Z.of_nat n <= clock w n.
Proof.
  intros Tick n. induction n as [| n IH]; [lia |].
  specialize (Tick n). lia.
Qed.

(** The loop entered at round [n] with enough rounds left: it ends at the
    first round [k] that reads a resolved row or finds the time used up
    after its sleep. *)
Lemma poll_statuses_rounds w clusterId jobIds timeout :
  (forall n, clock w n + 500 <= clock w (S n)) ->
  forall fuel n,
    (n <= Z.to_nat (timeout / 500))%nat ->
    (Z.to_nat (timeout / 500) + 1 <= fuel + n)%nat ->
    exists k,
      let jobs := select_statuses clusterId jobIds (db_at w (n + k)) in
      (forall i, (n <= i < n + k)%nat ->
         hasResolved (select_statuses clusterId jobIds (db_at w i)) = false
         /\ clock w (S i) - clock w 0 < timeout)
      /\ ((hasResolved jobs = true
           /\ poll_statuses fuel w clusterId jobIds timeout n
              = Some (jobs, waiting_rounds n k ++ [DbRead (n + k)]))
          \/ (hasResolved jobs = false
              /\ timeout <= clock w (S (n + k)) - clock w 0
              /\ poll_statuses fuel w clusterId jobIds timeout n
                 = Some (jobs, waiting_rounds n k ++ [DbRead (n + k); Sleep 500]))).
Proof.
  intros Tick. induction fuel as [| fuel IH]; intros n Hn Hf; [lia |].
  simpl poll_statuses.
  destruct (hasResolved (select_statuses clusterId jobIds (db_at w n))) eqn:R.
  - exists 0%nat. simpl. rewrite Nat.add_0_r. split; [intros i Hi; lia |].
    left. now rewrite R.
  - destruct (clock w (S n) - clock w 0 <? timeout) eqn:T.
    + apply Z.ltb_lt in T.
      assert (Hn' : (S n <= Z.to_nat (timeout / 500))%nat).
      { pose proof (clock_advances w Tick (S n)) as A.
        assert (500 * Z.of_nat (S n) < timeout) by lia.
        assert (Z.of_nat (S n) <= timeout / 500)
          by (apply Z.div_le_lower_bound; lia).
        lia. }
      destruct (IH (S n) Hn' ltac:(lia)) as (k & Before & Last).
      exists (S k). simpl. replace (n + S k)%nat with (S n + k)%nat by lia.
      split.
      * intros i Hi. destruct (Nat.eq_dec i n) as [-> | Ne]; [auto |].
        apply Before. lia.
      * unfold waiting_rounds in *. simpl.
        destruct Last as [(R' & ->) | (R' & T' & ->)]; [left | right]; auto.
    + apply Z.ltb_ge in T. exists 0%nat. simpl. rewrite Nat.add_0_r.
      split; [intros i Hi; lia |]. right. now rewrite R.
Qed.

(** The rows of a read against the rows of the table: each is the five
    columns of a row asked about, and every row asked about is read. *)
Lemma select_statuses_rows clusterId jobIds db r :
  In r (select_statuses clusterId jobIds db)
  <-> exists j, In j db /\ Asked clusterId jobIds j /\ r = read_of j.
Proof.
  unfold select_statuses, Asked. rewrite in_map_iff. split.
  - intros (j & <- & Hj). apply filter_In in Hj. destruct Hj as [Hj F].
    apply andb_true_iff in F. destruct F as [O M].
    apply String.eqb_eq in O. apply mem_In in M.
    exists j. split; [exact Hj | split; [split; assumption | reflexivity]].
  - intros (j & Hj & (O & M) & ->). exists j. split; [reflexivity |].
    apply filter_In. split; [exact Hj |]. apply andb_true_iff. split.
    + now apply String.eqb_eq.
    + now apply mem_In.
Qed.

Lemma Resolved_rows clusterId jobIds db :
  Resolved (select_statuses clusterId jobIds db)
  <-> ResolvedRow clusterId jobIds db.
Proof.
  unfold Resolved, ResolvedRow. split.
  - intros (r & Hr & St). apply select_statuses_rows in Hr.
    destruct Hr as (j & Hj & A & ->). exists j. auto.
  - intros (j & Hj & A & St). exists (read_of j). split; [| exact St].
    apply select_statuses_rows. exists j. auto.
Qed.

(** A read shows no row twice when the table holds no id twice. *)
Lemma select_statuses_unique clusterId jobIds db :
  NoDup (map id db) ->
  NoDup (map js_id (select_statuses clusterId jobIds db)).
Proof.
  intros ND. unfold select_statuses. rewrite map_map. simpl.
  now apply NoDup_map_filter.
Qed.

(** C7.  With a non-empty list of ids, a clock that advances by at least the
    500 ms of each sleep, and enough rounds allowed, the long-poll returns.
    It returns at the first round [k] at which the table holds a row of the
    caller's cluster, with an id asked for, in [success] or [failure],
    without sleeping in that round; or else at the first round whose 500 ms
    sleep ends with the timeout (20000 ms unless given) used up.  Every
    round before found no such row, slept 500 ms and read again.  The
    result is the read of round [k]: the id, service, status, result and
    result type of every row of the table, as it stands then, that is of
    the caller's cluster and has an id asked for, and nothing else; no row
    twice when the table holds no id twice.  Its ids are the asked ids that
    have a row in the caller's cluster, the others are left out. *)
Theorem getJobStatuses_long_poll :
  forall w jobIds clusterId longPollTimeout fuel,
    jobIds <> [] ->
    (forall n, clock w n + 500 <= clock w (S n)) ->
    (Z.to_nat (nullish longPollTimeout 20000%Z / 500) + 1 <= fuel)%nat ->
    exists k jobs acts,
      getJobStatuses fuel w jobIds clusterId longPollTimeout = Some (jobs, acts)
      /\ (forall r, In r jobs
                    <-> exists j, In j (db_at w k)
                                  /\ Asked clusterId jobIds j
                                  /\ r = read_of j)
      /\ (NoDup (map id (db_at w k)) -> NoDup (map js_id jobs))
      /\ (forall i, (i < k)%nat ->
            ~ ResolvedRow clusterId jobIds (db_at w i)
            /\ clock w (S i) - clock w 0 < nullish longPollTimeout 20000)
      /\ ((ResolvedRow clusterId jobIds (db_at w k)
           /\ acts = waiting_rounds 0 k ++ [DbRead k])
          \/ (~ ResolvedRow clusterId jobIds (db_at w k)
              /\ nullish longPollTimeout 20000 <= clock w (S k) - clock w 0
              /\ acts = waiting_rounds 0 k ++ [DbRead k; Sleep 500]))
      /\ (forall x, In x (map js_id jobs)
                    <-> In x jobIds
                        /\ exists j, In j (db_at w k) /\ id j = x
                                      /\ owner_hash j = clusterId).
Proof.
  intros w jobIds clusterId longPollTimeout fuel Hne Tick Hfuel.
  destruct jobIds as [| i0 ids]; [congruence |].
  set (jobIds := i0 :: ids) in *.
  destruct (poll_statuses_rounds w clusterId jobIds
              (nullish longPollTimeout 20000) Tick fuel 0%nat
              ltac:(lia) ltac:(lia)) as (k & Before & Last).
  simpl in Before, Last.
  exists k, (select_statuses clusterId jobIds (db_at w k)).
  destruct Last as [(R & E) | (R & T & E)]; eexists;
    (split; [exact E |]);
    (split; [intros r; apply select_statuses_rows |]);
    (split; [apply select_statuses_unique |]);
    (split; [intros i Hi; destruct (Before i ltac:(lia)) as [B1 B2];
             split; [| exact B2];
             intros RR; apply Resolved_rows in RR;
             now apply hasResolved_false in B1 |]);
    (split; [| intros x; apply select_statuses_ids]).
  - left. split; [| reflexivity].
    now apply Resolved_rows, hasResolved_iff.
  - right. split; [| split; [exact T | reflexivity]].
    intros RR. apply Resolved_rows in RR. now apply hasResolved_false in R.
Qed.

Lemma getJobStatuses_long_poll_witness :
  let w := Fixtures.succeeds_at_2 in
  ["01A"; "01Z"] <> []
  /\ (forall n, clock w n + 500 <= clock w (S n))
  /\ (Z.to_nat (nullish None 20000%Z / 500) + 1 <= 41)%nat
  /\ exists k jobs acts,
       getJobStatuses 41 w ["01A"; "01Z"] "cluster-1" None = Some (jobs, acts)
       /\ (forall r, In r jobs
                     <-> exists j, In j (db_at w k)
                                   /\ Asked "cluster-1" ["01A"; "01Z"] j
                                   /\ r = read_of j)
       /\ (NoDup (map id (db_at w k)) -> NoDup (map js_id jobs))
       /\ (forall i, (i < k)%nat ->
             ~ ResolvedRow "cluster-1" ["01A"; "01Z"] (db_at w i)
             /\ clock w (S i) - clock w 0 < nullish None 20000)
       /\ ((ResolvedRow "cluster-1" ["01A"; "01Z"] (db_at w k)
            /\ acts = waiting_rounds 0 k ++ [DbRead k])
           \/ (~ ResolvedRow "cluster-1" ["01A"; "01Z"] (db_at w k)
               /\ nullish None 20000 <= clock w (S k) - clock w 0
               /\ acts = waiting_rounds 0 k ++ [DbRead k; Sleep 500]))
       /\ (forall x, In x (map js_id jobs)
                     <-> In x ["01A"; "01Z"]
                         /\ exists j, In j (db_at w k) /\ id j = x
                                       /\ owner_hash j = "cluster-1").
Proof.
  intros w.
  assert (Hne : ["01A"; "01Z"] <> []) by discriminate.
  assert (Tick : forall n, clock w n + 500 <= clock w (S n))
    by (intros n; unfold w, Fixtures.succeeds_at_2; cbn [clock]; lia).
  assert (Hfuel : (Z.to_nat (nullish None 20000%Z / 500) + 1 <= 41)%nat)
    by (apply Nat.leb_le; reflexivity).
  split; [exact Hne | split; [exact Tick | split; [exact Hfuel |]]].
  exact (getJobStatuses_long_poll w ["01A"; "01Z"] "cluster-1" None 41
           Hne Tick Hfuel).
Defined.

(** C10.  With an empty list of ids the call answers the empty list at
    once: no read, no sleep, whatever the timeout, the store and the rounds
    allowed. *)
Theorem getJobStatuses_empty :
  forall fuel w clusterId longPollTimeout,
    getJobStatuses fuel w [] clusterId longPollTimeout = Some ([], []).
Proof. reflexivity. Qed.

(** ** The contract's [ttl] and the client's [jobPollWaitTime] *)

(** C8, as the source has it.  The [ttl] schema answers 20000 for an absent
    value and the caller's own value when it lies between 5000 and 20000; it
    raises an issue for every other value, so nothing it accepts was
    clipped.  The client constructor throws for a [jobPollWaitTime] under
    5000 other than 0 and keeps any other value as given.  [getJobStatuses]
    waits by the timeout it is handed, however small: when the first sleep
    uses it up the call ends after that one round. *)
Theorem ttl_validated_not_clipped :
  (forall input,
     match Contract.ttl input with
     | inr v => 5000 <= v <= 20000
                /\ ((input = None /\ v = 20000) \/ input = Some (Num v))
     | inl issue =>
         (input = Some NaN /\ issue = invalid_type)
         \/ exists n, input = Some (Num n)
                      /\ ((n < 5000 /\ issue = too_small)
                          \/ (20000 < n /\ issue = too_big))
     end)
  /\ (forall given,
        match constructor_jobPollWaitTime given with
        | Some kept =>
            kept = given
            /\ (given = None \/ exists n, given = Some n /\ (n = 0 \/ 5000 <= n))
        | None => exists n, given = Some n /\ n <> 0 /\ n < 5000
        end)
  /\ (forall fuel w jobIds clusterId t,
        jobIds <> [] ->
        ~ Resolved (select_statuses clusterId jobIds (db_at w 0)) ->
        t <= clock w 1 - clock w 0 ->
        getJobStatuses (S fuel) w jobIds clusterId (Some t)
        = Some (select_statuses clusterId jobIds (db_at w 0),
                [DbRead 0; Sleep 500])).
Proof.
  repeat apply conj.
  - intros [[n |] |]; simpl; [| left; auto | split; [lia | left; auto]].
    destruct (Z.ltb_spec n 5000); [right; exists n; auto |].
    destruct (Z.ltb_spec 20000 n); [right; exists n; auto |].
    split; [lia | now right].
  - intros [n |]; unfold constructor_jobPollWaitTime; simpl.
    + destruct (Z.eqb_spec n 0) as [-> | Hn]; simpl.
      * split; trivial. right. exists 0. auto.
      * destruct (Z.ltb_spec n 5000).
        -- exists n. auto.
        -- split; trivial. right. exists n. auto.
    + auto.
  - intros fuel w [| i ids] clusterId t Hne R T; [congruence |].
    apply hasResolved_false in R.
    unfold getJobStatuses. cbn [nullish poll_statuses]. rewrite R.
    destruct (Z.ltb_spec (clock w 1 - clock w 0) t); [lia | reflexivity].
Qed.

Lemma ttl_validated_not_clipped_witness :
  let w := Fixtures.still [Fixtures.job "01A" pending 2] in
  ["01A"] <> []
  /\ ~ Resolved (select_statuses "cluster-1" ["01A"] (db_at w 0))
  /\ 1 <= clock w 1 - clock w 0
  /\ getJobStatuses 40 w ["01A"] "cluster-1" (Some 1)
     = Some (select_statuses "cluster-1" ["01A"] (db_at w 0),
             [DbRead 0; Sleep 500]).
Proof.
  intros w.
  assert (Hne : ["01A"] <> []) by discriminate.
  assert (R : ~ Resolved (select_statuses "cluster-1" ["01A"] (db_at w 0)))
    by (apply hasResolved_false; reflexivity).
  assert (T : 1 <= clock w 1 - clock w 0) by (simpl; lia).
  split; [exact Hne | split; [exact R | split; [exact T |]]].
  exact (proj2 (proj2 ttl_validated_not_clipped) 39%nat w ["01A"] "cluster-1" 1
           Hne R T).
Defined.

(** Against C8 as stated.  Values outside the bounds are turned down, not
    moved to the nearest bound: 4000 and 30000 fail validation, the client throws on 4000 and
    keeps 30000, and [getJobStatuses] given 1 ms gives up after one round. *)
Lemma ttl_out_of_bounds_not_clipped :
  Contract.ttl (Some (Num 4000)) = inl too_small
  /\ Contract.ttl (Some (Num 30000)) = inl too_big
  /\ constructor_jobPollWaitTime (Some 4000) = None
  /\ constructor_jobPollWaitTime (Some 30000) = Some (Some 30000)
  /\ getJobStatuses 40 (Fixtures.still [Fixtures.job "01A" pending 2])
       ["01A"] "cluster-1" (Some 1)
     = Some ([{| js_id := "01A"; js_service := "greeter";
                 js_status := pending; js_result := None;
                 js_resultType := None |}],
             [DbRead 0; Sleep 500]).
Proof. repeat split. Qed.

(** ** The worker polling agent *)

Lemma poll_aborted a ticks :
  aborted a = true -> poll a ticks = Stopped (set_pollingAborted a).
Proof. intros H. destruct ticks; simpl; now rewrite H. Qed.

(** A request that fails in the network or is answered neither 200 nor 401
    comes back as [{ jobCount: 0, ok: false }]. *)
Lemma pollForNextJob_error a r :
  current a < concurrency a ->
  status_of r <> 200 -> status_of r <> 401 ->
  pollForNextJob a r = (a, Returned 0 false).
Proof.
  intros C H200 H401. unfold pollForNextJob.
  destruct (Z.leb_spec (concurrency a) (current a)); [lia |].
  destruct (status_of r =? 400); trivial.
  destruct (Z.eqb_spec (status_of r) 200); [contradiction |].
  destruct (Z.eqb_spec (status_of r) 401); [contradiction | trivial].
Qed.

Lemma account_error a :
  aborted a = false ->
  errorCount (account a 0 false) = S (errorCount a)
  /\ (aborted (account a 0 false) = true
      <-> (10 <= errorCount a)%nat \/ idle_exhausted a).
Proof.
  intros Ab. unfold account, idle_exhausted.
  replace (errorCount a + 1)%nat with (S (errorCount a)) by lia.
  destruct (Nat.ltb_spec 10 (errorCount (set_errorCount (S (errorCount a)) a)))
    as [L | L]; simpl in L.
  - cbn [maxIdleCycles quit set_errorCount idleCycleCount].
    destruct (maxIdleCycles a) as [m |];
      [destruct (negb (m =? 0)%nat && (m <=? idleCycleCount a)%nat) |];
      simpl; (split; [reflexivity |]); split; intros; trivial; left; lia.
  - cbn [maxIdleCycles set_errorCount idleCycleCount].
    destruct (maxIdleCycles a) as [m |].
    + destruct (negb (m =? 0)%nat && (m <=? idleCycleCount a)%nat) eqn:I; simpl.
      * split; [reflexivity |]. split; trivial. intros _. right.
        apply andb_true_iff in I. destruct I as [I1 I2].
        apply negb_true_iff, Nat.eqb_neq in I1. apply Nat.leb_le in I2.
        exists m. auto.
      * split; [reflexivity |]. rewrite Ab. split; [discriminate |].
        intros [H | (m' & E & Hm & Hi)]; [lia |].
        inversion E; subst.
        apply andb_false_iff in I. destruct I as [I | I].
        -- apply negb_false_iff, Nat.eqb_eq in I. contradiction.
        -- apply Nat.leb_gt in I. lia.
    + simpl. split; [reflexivity |]. rewrite Ab. split; [discriminate |].
      intros [H | (m' & E & _)]; [lia | discriminate].
Qed.

Lemma errorCount_quit a : errorCount (quit a) = errorCount a.
Proof. reflexivity. Qed.

Lemma account_ok a n : errorCount (account a n true) = 0%nat.
Proof.
  unfold account.
  set (a1 := if (0 <? n)%nat
             then set_idleCycleCount 0 (set_errorCount 0 a)
             else set_idleCycleCount
                    (S (idleCycleCount (set_errorCount 0 a)))
                    (set_errorCount 0 a)).
  assert (E : errorCount a1 = 0%nat)
    by (unfold a1; destruct (0 <? n)%nat; reflexivity).
  rewrite E. simpl.
  destruct (maxIdleCycles a1) as [m |]; trivial.
  destruct (negb (m =? 0)%nat && (m <=? idleCycleCount a1)%nat); trivial.
Qed.

(** A run of failed polls from a fresh count: the agent polls on while the
    count is at most 10 and is stopped by the poll that makes it 11. *)
Lemma poll_errors maxIdle n :
  forall e, (e <= 10)%nat ->
    poll (erring maxIdle e) (Fixtures.errors n)
    = if (e + n <=? 10)%nat then Polling (erring maxIdle (e + n))
      else Stopped (set_pollingAborted (quit (erring maxIdle 11))).
Proof.
  induction n as [| n IH]; intros e He.
  - rewrite Nat.add_0_r. simpl.
    destruct (Nat.leb_spec e 10); [reflexivity | lia].
  - assert (Step : poll (erring maxIdle e) (Fixtures.errors (S n))
                   = poll (account (erring maxIdle e) 0 false) (Fixtures.errors n))
      by reflexivity.
    rewrite Step.
    assert (Acc : account (erring maxIdle e) 0 false
                  = if (10 <? e + 1)%nat then quit (erring maxIdle (e + 1))
                    else erring maxIdle (e + 1)).
    { unfold account. cbn [errorCount set_errorCount erring].
      destruct (10 <? e + 1)%nat;
        cbn [maxIdleCycles quit set_errorCount idleCycleCount];
        destruct maxIdle as [[| m] |]; reflexivity. }
    rewrite Acc. destruct (Nat.ltb_spec 10 (e + 1)).
    + assert (e = 10)%nat by lia. subst e.
      rewrite poll_aborted by reflexivity.
      destruct (Nat.leb_spec (10 + S n) 10); [lia | reflexivity].
    + rewrite IH by lia. replace (e + 1 + n)%nat with (e + S n)%nat by lia.
      reflexivity.
Qed.

(** C9, as the source has it.  In a turn where the agent is not aborted and
    has concurrency to spare: a request that fails in the network or is
    answered neither 200 nor 401 adds one to the error count, and the agent
    quits in that turn exactly when the count was already 10 (or its idle
    shutdown is due); a 200 sets the count to 0; a 401 makes [poll] reject
    with UNAUTHORISED at once, whatever the count, and nothing is polled
    after it.  So a fresh agent polls on through 10 errors in a row and is
    stopped by the 11th. *)
Theorem poll_error_accounting :
  (forall a t ticks,
     aborted a = false ->
     current a - Z.of_nat (completed t) < concurrency a ->
     let a0 := set_current (current a - Z.of_nat (completed t)) a in
     (status_of (answer t) <> 200 -> status_of (answer t) <> 401 ->
      poll a (t :: ticks) = poll (account a0 0 false) ticks
      /\ errorCount (account a0 0 false) = S (errorCount a)
      /\ (aborted (account a0 0 false) = true
          <-> (10 <= errorCount a)%nat \/ idle_exhausted a))
     /\ (forall n, answer t = Http 200 n ->
         exists a1, poll a (t :: ticks) = poll a1 ticks
                    /\ errorCount a1 = 0%nat)
     /\ (forall n, answer t = Http 401 n ->
         poll a (t :: ticks) = Unauthorised a0))
  /\ (forall maxIdle n,
        poll (new_agent maxIdle) (Fixtures.errors n)
        = if (n <=? 10)%nat then Polling (erring maxIdle n)
          else Stopped (set_pollingAborted (quit (erring maxIdle 11)))).
Proof.
  split.
  - intros a t ticks Ab Room a0.
    assert (Ab0 : aborted a0 = false) by exact Ab.
    assert (Room0 : current a0 < concurrency a0) by exact Room.
    assert (Turn : poll a (t :: ticks)
                   = match pollForNextJob a0 (answer t) with
                     | (a1, Threw_UNAUTHORISED) => Unauthorised a1
                     | (a1, Returned jobCount ok) =>
                         poll (account a1 jobCount ok) ticks
                     end)
      by (simpl; now rewrite Ab).
    repeat apply conj.
    + intros H200 H401.
      rewrite Turn, (pollForNextJob_error a0 _ Room0 H200 H401).
      destruct (account_error a0 Ab0) as [E Q].
      split; [reflexivity | split; [exact E | exact Q]].
    + intros n E. rewrite Turn. unfold pollForNextJob. rewrite E.
      destruct (Z.leb_spec (concurrency a0) (current a0)); [lia |].
      simpl. eexists. split; [reflexivity | apply account_ok].
    + intros n E. rewrite Turn. unfold pollForNextJob. rewrite E.
      destruct (Z.leb_spec (concurrency a0) (current a0)); [lia |].
      reflexivity.
  - intros maxIdle n. exact (poll_errors maxIdle n 0%nat ltac:(lia)).
Qed.

Lemma poll_error_accounting_witness :
  let a := erring None 10 in
  aborted a = false
  /\ current a - Z.of_nat (completed Fixtures.unreachable) < concurrency a
  /\ poll a [Fixtures.unreachable]
     = poll (account a 0 false) []
  /\ errorCount (account a 0 false) = 11%nat
  /\ aborted (account a 0 false) = true.
Proof.
  intros a.
  assert (Ab : aborted a = false) by reflexivity.
  assert (Room : current a - Z.of_nat (completed Fixtures.unreachable)
                 < concurrency a) by reflexivity.
  destruct (proj1 poll_error_accounting a Fixtures.unreachable [] Ab Room)
    as (Err & _).
  destruct Err as (P & E & Q); [discriminate | discriminate |].
  split; [exact Ab | split; [exact Room | split; [exact P |]]].
  split; [exact E | reflexivity].
Defined.

(** Against C9 as stated.  Ten errors in a row leave a fresh agent polling,
    its controller not aborted; the eleventh stops it.  A 401 ends the run at once with the
    count untouched. *)
Lemma poll_ten_errors_keeps_polling :
  poll (new_agent None) (Fixtures.errors 10)
  = Polling {| errorCount := 10; idleCycleCount := 0; aborted := false;
               pollingAborted := false; current := 0; concurrency := 100;
               maxIdleCycles := None |}
  /\ poll (new_agent None) (Fixtures.errors 11)
     = Stopped {| errorCount := 11; idleCycleCount := 0; aborted := true;
                  pollingAborted := true; current := 0; concurrency := 100;
                  maxIdleCycles := None |}
  /\ poll (new_agent None) (Fixtures.errors 3 ++ [Fixtures.unauthorised]
                            ++ Fixtures.errors 20)
     = Unauthorised {| errorCount := 3; idleCycleCount := 0; aborted := false;
                       pollingAborted := false; current := 0;
                       concurrency := 100; maxIdleCycles := None |}.
Proof. repeat split. Qed.


(** * The rest of the code *)

(** ** Rows, ids and keys *)

Lemma filter_none {A} (f : A -> bool) (l : list A) :
  (forall x, In x l -> f x = false) -> filter f l = [].
Proof.
  induction l as [| a l IH]; simpl; trivial. intros H.
  rewrite (H a) by now left. apply IH. intros x Hx. apply H. now right.
Qed.

Lemma filter_all {A} (f : A -> bool) (l : list A) :
  (forall x, In x l -> f x = true) -> filter f l = l.
Proof.
  induction l as [| a l IH]; simpl; trivial. intros H.
  rewrite (H a) by now left. f_equal. apply IH. intros x Hx. apply H.
  now right.
Qed.

Lemma filter_unique_id (g : Job -> bool) (db : Table) (j : Job) :
  NoDup (map id db) -> In j db ->
  filter (fun x => String.eqb (id x) (id j) && g x) db
  = if g j then [j] else [].
Proof.
  induction db as [| r db IH]; simpl; [tauto |].
  intros ND Hj. inversion ND as [| ? ? Hnot ND']; subst.
  destruct Hj as [-> | Hj].
  - rewrite String.eqb_refl. simpl.
    assert (E : filter (fun x => String.eqb (id x) (id j) && g x) db = []).
    { apply filter_none. intros x Hx.
      destruct (String.eqb_spec (id x) (id j)) as [Ex | _]; trivial.
      exfalso. apply Hnot. rewrite <- Ex. now apply in_map. }
    rewrite E. now destruct (g j).
  - destruct (String.eqb_spec (id r) (id j)) as [E | _]; simpl.
    + exfalso. apply Hnot. rewrite E. now apply in_map.
    + now apply IH.
Qed.

(** ** [getJobStatus] *)

(** X1.  [getJobStatus] answers with a row of the caller's cluster that has
    the id asked for, and with nothing exactly when the caller's cluster has
    no such row: a job of another cluster is never shown. *)
Theorem getJobStatus_own_cluster :
  forall jobId clusterId db,
    match getJobStatus jobId clusterId db with
    | Some r =>
        exists j, In j db /\ id j = jobId /\ owner_hash j = clusterId
                  /\ r = shown j
    | None =>
        forall j, In j db -> id j = jobId -> owner_hash j <> clusterId
    end.
Proof.
  intros jobId clusterId db. unfold getJobStatus.
  destruct (filter (fun j => String.eqb (id j) jobId
                             && String.eqb (owner_hash j) clusterId) db)
    as [| job rest] eqn:F.
  - intros j Hj Ei Eo.
    assert (H : In j (filter (fun j => String.eqb (id j) jobId
                                && String.eqb (owner_hash j) clusterId) db)).
    { apply filter_In. split; trivial.
      apply andb_true_iff. now rewrite !String.eqb_eq. }
    rewrite F in H. destruct H.
  - assert (H : In job (filter (fun j => String.eqb (id j) jobId
                                  && String.eqb (owner_hash j) clusterId) db))
      by (rewrite F; now left).
    apply filter_In in H. destruct H as [Hj T].
    apply andb_true_iff in T. rewrite !String.eqb_eq in T.
    exists job. repeat split; tauto.
Qed.

(** ** [nextJobs], continued *)

(** X2.  A poll the store accepts hands out at most [limit] jobs and neither
    adds nor removes a row. *)
Theorem nextJobs_at_most_limit :
  forall now p db,
    0 <= nj_limit p ->
    NoDup (map id db) ->
    exists db' jobs,
      nextJobs now p db = Some (db', jobs)
      /\ Z.of_nat (List.length jobs) <= nj_limit p
      /\ List.length db' = List.length db.
Proof.
  intros now p db L ND.
  pose proof (nextJobs_returns now p db L) as H.
  do 2 eexists. split; [exact H |]. split.
  - pose proof (nextJobs_claimed_rows _ _ _ _ _ H ND) as E.
    apply (f_equal (@List.length string)) in E.
    unfold claimed_ids in E. rewrite !length_map, length_firstn in E.
    rewrite E. lia.
  - unfold update_claimed. apply length_map.
Qed.

Lemma nextJobs_at_most_limit_witness :
  let db := Fixtures.in_order in
  let p := Fixtures.worker 1 in
  0 <= nj_limit p
  /\ NoDup (map id db)
  /\ exists db' jobs,
       nextJobs 5000 p db = Some (db', jobs)
       /\ Z.of_nat (List.length jobs) <= nj_limit p
       /\ List.length db' = List.length db.
Proof.
  intros db p.
  assert (L : 0 <= nj_limit p) by (simpl; lia).
  assert (ND : NoDup (map id db)) by distinct_ids.
  split; [exact L | split; [exact ND |]].
  exact (nextJobs_at_most_limit 5000 p db L ND).
Defined.

(** X3.  No job is handed out twice by two polls in a row, whoever makes the
    second poll: what the first poll handed out is running and the second
    selects only pending and failure rows. *)
Theorem nextJobs_never_twice :
  forall now1 now2 p q db,
    0 <= nj_limit p ->
    0 <= nj_limit q ->
    exists db1 jobs1 db2 jobs2,
      nextJobs now1 p db = Some (db1, jobs1)
      /\ nextJobs now2 q db1 = Some (db2, jobs2)
      /\ forall x, In x (claimed_ids jobs1) -> ~ In x (claimed_ids jobs2).
Proof.
  intros now1 now2 p q db Lp Lq.
  pose proof (nextJobs_returns now1 p db Lp) as H1.
  set (db1 := update_claimed now1 (nj_machineId p) (selected_ids p db) db) in *.
  pose proof (nextJobs_returns now2 q db1 Lq) as H2.
  do 4 eexists. split; [exact H1 |]. split; [exact H2 |].
  intros x X1 X2.
  apply (nextJobs_claimed_selected _ _ _ _ _ _ H1), mem_In in X1.
  apply (nextJobs_claimed_selected _ _ _ _ _ _ H2) in X2.
  unfold selected_ids in X2. apply firstn_In, in_map_iff in X2.
  destruct X2 as (r' & E & Hr'). apply filter_In in Hr'.
  destruct Hr' as [Hr' Sel]. unfold db1, update_claimed in Hr'.
  apply in_map_iff in Hr'. destruct Hr' as (r & Er & Hr).
  assert (Ei : id r = x).
  { rewrite <- E, <- Er. now destruct (mem (id r) (selected_ids p db)). }
  rewrite Ei, X1 in Er. subst r'.
  unfold selectable in Sel. simpl in Sel. discriminate.
Qed.

Lemma nextJobs_never_twice_witness :
  let p := Fixtures.worker 1 in
  let q := Fixtures.worker 10 in
  0 <= nj_limit p
  /\ 0 <= nj_limit q
  /\ exists db1 jobs1 db2 jobs2,
       nextJobs 5000 p Fixtures.in_order = Some (db1, jobs1)
       /\ nextJobs 6000 q db1 = Some (db2, jobs2)
       /\ forall x, In x (claimed_ids jobs1) -> ~ In x (claimed_ids jobs2).
Proof.
  intros p q.
  assert (Lp : 0 <= nj_limit p) by (simpl; lia).
  assert (Lq : 0 <= nj_limit q) by (simpl; lia).
  split; [exact Lp | split; [exact Lq |]].
  exact (nextJobs_never_twice 5000 6000 p q Fixtures.in_order Lp Lq).
Defined.

(** X4.  A poll leaves the id and the primary key of every row as they
    were, so both uniqueness constraints of the table survive it, and with
    unique ids it leaves every row of another cluster or another service
    exactly as it was. *)
Theorem nextJobs_keeps_keys :
  forall now p db,
    0 <= nj_limit p ->
    exists db' jobs,
      nextJobs now p db = Some (db', jobs)
      /\ map id db' = map id db
      /\ map pk db' = map pk db
      /\ (NoDup (map id db) ->
          Forall2 (fun j j' =>
                     owner_hash j <> nj_clusterId p \/ service j <> nj_service p ->
                     j' = j) db db').
Proof.
  intros now p db L.
  pose proof (nextJobs_returns now p db L) as H.
  do 2 eexists. split; [exact H |]. split; [apply update_claimed_ids |].
  split.
  - unfold update_claimed. rewrite map_map. apply map_ext.
    intros j. now destruct (mem (id j) (selected_ids p db)).
  - intros ND. unfold update_claimed. apply Forall2_map_in.
    intros j Hj Other.
    destruct (mem (id j) (selected_ids p db)) eqn:M; trivial.
    exfalso. apply mem_In in M. unfold selected_ids in M.
    apply firstn_In, in_map_iff in M. destruct M as (r & E & Hr).
    apply filter_In in Hr. destruct Hr as [Hr Sel].
    rewrite (unique_id_row db r j ND Hr Hj E) in Sel.
    apply selectable_iff in Sel. destruct Sel as (_ & O & S). tauto.
Qed.

Lemma nextJobs_keeps_keys_witness :
  let p := Fixtures.worker 10 in
  let db := Fixtures.in_order in
  0 <= nj_limit p
  /\ exists db' jobs,
       nextJobs 5000 p db = Some (db', jobs)
       /\ map id db' = map id db
       /\ map pk db' = map pk db
       /\ (NoDup (map id db) ->
           Forall2 (fun j j' =>
                      owner_hash j <> nj_clusterId p
                      \/ service j <> nj_service p ->
                      j' = j) db db').
Proof.
  intros p db.
  assert (L : 0 <= nj_limit p) by (simpl; lia).
  split; [exact L |].
  exact (nextJobs_keeps_keys 5000 p db L).
Defined.

(** ** [createJob], continued *)

(** X5.  An admission that completes keeps both uniqueness constraints of
    the table, leaves every row that was there as it was, adds at most one
    row, and answers with an id that is in the table. *)
Theorem createJob_keeps_table :
  forall e p db db' i,
    createJob e p db = Some (db', i) ->
    NoDup (map id db) ->
    NoDup (map pk db) ->
    NoDup (map id db') /\ NoDup (map pk db')
    /\ In i (map id db')
    /\ exists added, db' = db ++ added /\ (List.length added <= 1)%nat.
Proof.
  intros e p db db' i H NDi NDk.
  destruct (createJob_cases _ _ _ _ _ H)
    as [(-> & c & best & _ & Hb & Eb & _) | (k & _ & -> & Fi & Fk & ->)].
  - repeat split; trivial.
    + rewrite <- Eb. now apply in_map.
    + exists []. rewrite app_nil_r. auto.
  - rewrite !map_app. simpl. repeat split.
    + now apply NoDup_snoc.
    + now apply NoDup_snoc.
    + apply in_or_app. right. now left.
    + exists [admitted_row e p k]. auto.
Qed.

Lemma createJob_keeps_table_witness :
  let e := Fixtures.at_time 1000 "01D" in
  let p := Fixtures.hello None in
  let db := Fixtures.in_order in
  let db' := db ++ [Fixtures.job "01D" pending 2] in
  createJob e p db = Some (db', "01D")
  /\ NoDup (map id db)
  /\ NoDup (map pk db)
  /\ NoDup (map id db') /\ NoDup (map pk db')
  /\ In "01D" (map id db')
  /\ exists added, db' = db ++ added /\ (List.length added <= 1)%nat.
Proof.
  intros e p db db'.
  assert (H : createJob e p db = Some (db', "01D")) by reflexivity.
  assert (NDi : NoDup (map id db)) by distinct_ids.
  assert (NDk : NoDup (map pk db)) by distinct_ids.
  split; [exact H | split; [exact NDi | split; [exact NDk |]]].
  exact (createJob_keeps_table e p db db' "01D" H NDi NDk).
Defined.

(** X6.  The id an admission answers with can be looked up at once by the
    admitting cluster, and by no other cluster: [getJobStatus] shows the
    job under the admitted service, pending without a result when the
    admission inserted it, a successful resolution when the admission
    reused a cached job. *)
Theorem createJob_then_getJobStatus :
  forall e p db db' i,
    createJob e p db = Some (db', i) ->
    NoDup (map id db) ->
    (exists r,
       getJobStatus i (p_clusterId p) db' = Some r
       /\ gs_service r = p_service p
       /\ ((~ In i (map id db) /\ gs_status r = pending
            /\ gs_result r = None /\ gs_resultType r = None)
           \/ (db' = db /\ gs_status r = success
               /\ gs_resultType r = Some resolution)))
    /\ forall other, other <> p_clusterId p ->
                     getJobStatus i other db' = None.
Proof.
  intros e p db db' i H ND.
  assert (Row : exists j, In j db' /\ id j = i /\ NoDup (map id db')
                          /\ owner_hash j = p_clusterId p
                          /\ service j = p_service p
                          /\ ((~ In i (map id db) /\ status j = pending
                               /\ result j = None /\ result_type j = None)
                              \/ (db' = db /\ status j = success
                                  /\ result_type j = Some resolution))).
  { destruct (createJob_cases _ _ _ _ _ H)
      as [(-> & c & best & _ & Hb & Eb & Hit) | (k & _ & -> & Fi & _ & ->)].
    - destruct Hit as (_ & O & S & _ & St & Rt & _).
      exists best. repeat split; trivial. right. auto.
    - exists (admitted_row e p k). repeat split.
      + apply in_or_app. right. now left.
      + rewrite map_app. now apply NoDup_snoc.
      + left. repeat split. exact Fi. }
  destruct Row as (j & Hj & Ei & ND' & O & S & Kind). subst i.
  assert (Look : forall c,
            getJobStatus (id j) c db'
            = if String.eqb (owner_hash j) c then Some (shown j) else None).
  { intros c. unfold getJobStatus.
    rewrite (filter_unique_id (fun x => String.eqb (owner_hash x) c) db' j ND' Hj).
    now destruct (String.eqb (owner_hash j) c). }
  split.
  - exists (shown j). rewrite Look, O, String.eqb_refl.
    split; [reflexivity | split; [exact S | exact Kind]].
  - intros other Ne. rewrite Look.
    destruct (String.eqb_spec (owner_hash j) other); congruence.
Qed.

Lemma createJob_then_getJobStatus_witness :
  let e := Fixtures.at_time 1000 "01D" in
  let p := Fixtures.hello None in
  let db := Fixtures.in_order in
  let db' := db ++ [Fixtures.job "01D" pending 2] in
  createJob e p db = Some (db', "01D")
  /\ NoDup (map id db)
  /\ (exists r,
        getJobStatus "01D" (p_clusterId p) db' = Some r
        /\ gs_service r = p_service p
        /\ ((~ In "01D" (map id db) /\ gs_status r = pending
             /\ gs_result r = None /\ gs_resultType r = None)
            \/ (db' = db /\ gs_status r = success
                /\ gs_resultType r = Some resolution)))
  /\ forall other, other <> p_clusterId p ->
                   getJobStatus "01D" other db' = None.
Proof.
  intros e p db db'.
  assert (H : createJob e p db = Some (db', "01D")) by reflexivity.
  assert (ND : NoDup (map id db)) by distinct_ids.
  split; [exact H | split; [exact ND |]].
  exact (createJob_then_getJobStatus e p db db' "01D" H ND).
Defined.

(** X7.  A job an admission has just inserted is handed to the next poll of
    a worker of the admitting cluster and service whose limit covers the
    selectable rows, with the admitted function and arguments; a poll for
    another cluster or another service never gets it. *)
Theorem createJob_then_nextJobs :
  forall e p db db' i now w,
    createJob e p db = Some (db', i) ->
    ~ In i (map id db) ->
    NoDup (map id db) ->
    0 <= nj_limit w ->
    exists db'' jobs,
      nextJobs now w db' = Some (db'', jobs)
      /\ (nj_clusterId w = p_clusterId p ->
          nj_service w = p_service p ->
          Z.of_nat (List.length (filter (selectable w) db')) <= nj_limit w ->
          In {| job_id := i; targetFn := p_targetFn p;
                targetArgs := p_targetArgs p |} jobs)
      /\ (nj_clusterId w <> p_clusterId p \/ nj_service w <> p_service p ->
          ~ In i (claimed_ids jobs)).
Proof.
  intros e p db db' i now w H New ND L.
  destruct (createJob_cases _ _ _ _ _ H)
    as [(_ & c & best & _ & Hb & Eb & _) | (k & _ & -> & Fi & _ & ->)].
  { exfalso. apply New. rewrite <- Eb. now apply in_map. }
  set (row := admitted_row e p k).
  set (db' := db ++ [row]) in *.
  assert (Hrow : In row db') by (apply in_or_app; right; now left).
  assert (ND' : NoDup (map id db'))
    by (unfold db'; rewrite map_app; now apply NoDup_snoc).
  pose proof (nextJobs_returns now w db' L) as R.
  do 2 eexists. split; [exact R |]. split.
  - intros Ec Es Cover.
    assert (Sel : selectable w row = true).
    { apply selectable_iff. unfold Selectable, row. simpl. auto. }
    assert (M : mem (id row) (selected_ids w db') = true).
    { apply mem_In. unfold selected_ids.
      rewrite firstn_all2 by (rewrite length_map; lia).
      apply in_map, filter_In. auto. }
    unfold returning. apply in_map_iff.
    exists (claim now (nj_machineId w) row). split; [reflexivity |].
    apply filter_In. split; [| exact M].
    unfold update_claimed. apply in_map_iff. exists row. now rewrite M.
  - intros Other Hin.
    apply (nextJobs_claimed_selected _ _ _ _ _ _ R) in Hin.
    unfold selected_ids in Hin. apply firstn_In, in_map_iff in Hin.
    destruct Hin as (r & E & Hr). apply filter_In in Hr.
    destruct Hr as [Hr Sel].
    rewrite (unique_id_row db' r row ND' Hr Hrow E) in Sel.
    apply selectable_iff in Sel. destruct Sel as (_ & O & S).
    unfold row in O, S. simpl in O, S. destruct Other; congruence.
Qed.

Lemma createJob_then_nextJobs_witness :
  let e := Fixtures.at_time 1000 "01D" in
  let p := Fixtures.hello None in
  let db := Fixtures.in_order in
  let db' := db ++ [Fixtures.job "01D" pending 2] in
  let w := Fixtures.worker 10 in
  createJob e p db = Some (db', "01D")
  /\ ~ In "01D" (map id db)
  /\ NoDup (map id db)
  /\ 0 <= nj_limit w
  /\ exists db'' jobs,
       nextJobs 5000 w db' = Some (db'', jobs)
       /\ (nj_clusterId w = p_clusterId p ->
           nj_service w = p_service p ->
           Z.of_nat (List.length (filter (selectable w) db')) <= nj_limit w ->
           In {| job_id := "01D"; targetFn := p_targetFn p;
                 targetArgs := p_targetArgs p |} jobs)
       /\ (nj_clusterId w <> p_clusterId p \/ nj_service w <> p_service p ->
           ~ In "01D" (claimed_ids jobs)).
Proof.
  intros e p db db' w.
  assert (H : createJob e p db = Some (db', "01D")) by reflexivity.
  assert (New : ~ In "01D" (map id db)) by (simpl; intuition discriminate).
  assert (ND : NoDup (map id db)) by distinct_ids.
  assert (L : 0 <= nj_limit w) by (simpl; lia).
  split; [exact H | split; [exact New | split; [exact ND | split; [exact L |]]]].
  exact (createJob_then_nextJobs e p db db' "01D" 5000 w H New ND L).
Defined.

(** X8.  A cache request with an empty key or a ttl of 0 is not a cache
    request: the admission does not probe the table, inserts a new row
    however fresh a matching result may be, and the row carries no cache
    key. *)
Theorem createJob_cache_needs_key_and_ttl :
  forall e p cfg c db db' i,
    p_callConfig p = Some cfg ->
    cache cfg = Some c ->
    key c = "" \/ ttlSeconds c = 0 ->
    createJob e p db = Some (db', i) ->
    ~ In i (map id db)
    /\ exists row, db' = db ++ [row] /\ id row = i /\ cache_key row = None.
Proof.
  intros e p cfg c db db' i Ecfg Ec Off H.
  assert (C : cache_requested p = None).
  { unfold cache_requested, chain. rewrite Ecfg, Ec.
    destruct Off as [-> | ->]; simpl; trivial.
    now rewrite andb_false_r. }
  destruct (createJob_cases _ _ _ _ _ H)
    as [(_ & c' & _ & C' & _) | (k & _ & -> & Fi & _ & ->)].
  - congruence.
  - split; [exact Fi |]. eexists. split; [reflexivity |].
    unfold admitted_row. rewrite C. split; reflexivity.
Qed.

Lemma createJob_cache_needs_key_and_ttl_witness :
  let e := Fixtures.at_time 1000 "01C" in
  let cfg := {| cache := Some {| key := "k"; ttlSeconds := 0 |};
                retryCountOnStall := None;
                predictiveRetriesOnRejection := None;
                timeoutSeconds := None; executionId := None |} in
  let p := Fixtures.hello (Some cfg) in
  let db' := Fixtures.tied ++ [Fixtures.job "01C" pending 2] in
  createJob e p Fixtures.tied = Some (db', "01C")
  /\ ~ In "01C" (map id Fixtures.tied)
  /\ exists row, db' = Fixtures.tied ++ [row] /\ id row = "01C"
                 /\ cache_key row = None.
Proof.
  intros e cfg p db'.
  assert (H : createJob e p Fixtures.tied = Some (db', "01C")) by reflexivity.
  split; [exact H |].
  exact (createJob_cache_needs_key_and_ttl e p cfg
           {| key := "k"; ttlSeconds := 0 |} Fixtures.tied db' "01C"
           eq_refl eq_refl (or_intror eq_refl) H).
Defined.

(** ** [getJobStatuses], continued *)

Lemma poll_statuses_budget w clusterId jobIds timeout :
  (forall n, clock w n + 500 <= clock w (S n)) ->
  forall fuel n jobs acts,
    poll_statuses fuel w clusterId jobIds timeout n = Some (jobs, acts) ->
    (n <= Z.to_nat (timeout / 500))%nat ->
    (reads acts + n <= Z.to_nat (timeout / 500) + 1)%nat
    /\ slept acts <= 500 * Z.of_nat (reads acts).
Proof.
  intros Tick. induction fuel as [| fuel IH]; intros n jobs acts H Hn;
    [discriminate |].
  simpl in H.
  destruct (hasResolved (select_statuses clusterId jobIds (db_at w n))).
  - inversion H; subst. cbn [reads slept]. lia.
  - destruct (clock w (S n) - clock w 0 <? timeout) eqn:T.
    + apply Z.ltb_lt in T.
      assert (Hn' : (S n <= Z.to_nat (timeout / 500))%nat).
      { pose proof (clock_advances w Tick (S n)) as A.
        assert (500 * Z.of_nat (S n) < timeout) by lia.
        assert (Z.of_nat (S n) <= timeout / 500)
          by (apply Z.div_le_lower_bound; lia).
        lia. }
      destruct (poll_statuses fuel w clusterId jobIds timeout (S n))
        as [[r a] |] eqn:P; [| discriminate].
      inversion H; subst. destruct (IH _ _ _ P Hn') as [B1 B2].
      cbn [reads slept]. lia.
    + inversion H; subst. cbn [reads slept]. lia.
Qed.

(** X9.  With a clock that advances by at least the 500 ms of each sleep, a
    long-poll that returns has read the table at most [timeout / 500 + 1]
    times and has slept at most 500 ms longer than its timeout. *)
Theorem getJobStatuses_bounded_wait :
  forall w jobIds clusterId longPollTimeout fuel jobs acts,
    (forall n, clock w n + 500 <= clock w (S n)) ->
    getJobStatuses fuel w jobIds clusterId longPollTimeout = Some (jobs, acts) ->
    (reads acts <= Z.to_nat (nullish longPollTimeout 20000%Z / 500) + 1)%nat
    /\ slept acts <= Z.max 0 (nullish longPollTimeout 20000) + 500.
Proof.
  intros w jobIds clusterId longPollTimeout fuel jobs acts Tick H.
  set (T := nullish longPollTimeout 20000) in *.
  destruct jobIds as [| i0 ids].
  - inversion H; subst. simpl. lia.
  - unfold getJobStatuses in H. fold T in H.
    destruct (poll_statuses_budget w clusterId (i0 :: ids) T Tick
                fuel 0%nat jobs acts H ltac:(lia)) as [B1 B2].
    split; [lia |].
    assert (500 * Z.of_nat (Z.to_nat (T / 500)) <= Z.max 0 T).
    { destruct (Z.le_gt_cases 0 T) as [Pos | Neg].
      - rewrite Z2Nat.id by (apply Z.div_pos; lia).
        pose proof (Z.mul_div_le T 500 ltac:(lia)). lia.
      - assert (T / 500 < 0) by (apply Z.div_lt_upper_bound; lia).
        lia. }
    lia.
Qed.

Lemma getJobStatuses_bounded_wait_witness :
  let w := Fixtures.still [Fixtures.job "01A" pending 2] in
  let jobs := select_statuses "cluster-1" ["01A"] (db_at w 1) in
  let acts := [DbRead 0; Sleep 500; DbRead 1; Sleep 500] in
  (forall n, clock w n + 500 <= clock w (S n))
  /\ getJobStatuses 5 w ["01A"] "cluster-1" (Some 1000) = Some (jobs, acts)
  /\ (reads acts <= Z.to_nat (nullish (Some 1000%Z) 20000%Z / 500) + 1)%nat
  /\ slept acts <= Z.max 0 (nullish (Some 1000) 20000) + 500.
Proof.
  intros w jobs acts.
  assert (Tick : forall n, clock w n + 500 <= clock w (S n))
    by (intros n; unfold w, Fixtures.still; cbn [clock]; lia).
  assert (H : getJobStatuses 5 w ["01A"] "cluster-1" (Some 1000)
              = Some (jobs, acts)) by reflexivity.
  split; [exact Tick | split; [exact H |]].
  exact (getJobStatuses_bounded_wait w ["01A"] "cluster-1" (Some 1000) 5
           jobs acts Tick H).
Defined.

(** ** [storeMachineInfo] *)

Lemma is_machine_iff machineId clusterId m :
  is_machine machineId clusterId m = true <-> mkey m = (machineId, clusterId).
Proof.
  unfold is_machine, mkey. rewrite andb_true_iff, !String.eqb_eq.
  split; [intros [-> ->]; reflexivity | intros E; inversion E; auto].
Qed.

(** X10.  [storeMachineInfo] is an upsert on [(id, cluster_id)]: it keeps the
    primary key unique, leaves every other machine as it was, and leaves the
    pinging machine in the table with the given ip and status active.  A
    machine that was not there gets the given deployment id; a machine that
    was there keeps the deployment id it had, whatever the ping says. *)
Theorem storeMachineInfo_upsert :
  forall t_insert t_update machineId ip clusterId deploymentId machines,
    NoDup (map mkey machines) ->
    let machines' :=
      storeMachineInfo t_insert t_update machineId ip clusterId deploymentId
        machines in
    NoDup (map mkey machines')
    /\ (forall m, In m machines -> mkey m <> (machineId, clusterId) ->
                  In m machines')
    /\ exists m,
         In m machines' /\ mkey m = (machineId, clusterId)
         /\ m_ip m = Some ip /\ m_status m = Some active
         /\ ((~ In (machineId, clusterId) (map mkey machines)
              /\ machines' = machines ++ [m]
              /\ m_deployment_id m = deploymentId
              /\ m_last_ping_at m = Some t_insert)
             \/ (exists old,
                   In old machines /\ mkey old = (machineId, clusterId)
                   /\ List.length machines' = List.length machines
                   /\ m_deployment_id m = m_deployment_id old
                   /\ m_last_ping_at m = Some t_update)).
Proof.
  intros t1 t2 machineId ip clusterId dep machines ND. simpl.
  unfold storeMachineInfo.
  destruct (existsb (is_machine machineId clusterId) machines) eqn:E.
  - apply existsb_exists in E. destruct E as (old & Hold & Is).
    assert (Keys : map mkey
                     (map (fun m => if is_machine machineId clusterId m
                                    then ping t2 ip m else m) machines)
                   = map mkey machines).
    { rewrite map_map. apply map_ext. intros m.
      now destruct (is_machine machineId clusterId m). }
    split; [now rewrite Keys |]. split.
    + intros m Hm Ne. apply in_map_iff. exists m. split; trivial.
      destruct (is_machine machineId clusterId m) eqn:I; trivial.
      apply is_machine_iff in I. contradiction.
    + exists (ping t2 ip old). split.
      * apply in_map_iff. exists old. now rewrite Is.
      * apply is_machine_iff in Is.
        split; [exact Is |]. split; [reflexivity |]. split; [reflexivity |].
        right. exists old. rewrite length_map. auto.
  - assert (Fresh : ~ In (machineId, clusterId) (map mkey machines)).
    { intros Hin. apply in_map_iff in Hin. destruct Hin as (m & K & Hm).
      assert (T : existsb (is_machine machineId clusterId) machines = true)
        by (apply existsb_exists; exists m; split; trivial;
            now apply is_machine_iff).
      congruence. }
    split; [rewrite map_app; now apply NoDup_snoc |]. split.
    + intros m Hm _. apply in_or_app. now left.
    + eexists. split; [apply in_or_app; right; now left |].
      split; [reflexivity |]. split; [reflexivity |]. split; [reflexivity |].
      left. auto.
Qed.

Lemma storeMachineInfo_upsert_witness :
  let machines' :=
    storeMachineInfo 5000 5001 "m1" "10.0.0.9" "cluster-1" (Some "dep-2")
      Samples.fleet in
  NoDup (map mkey Samples.fleet)
  /\ NoDup (map mkey machines')
  /\ (forall m, In m Samples.fleet -> mkey m <> ("m1", "cluster-1") ->
                In m machines')
  /\ exists m,
       In m machines' /\ mkey m = ("m1", "cluster-1")
       /\ m_ip m = Some "10.0.0.9" /\ m_status m = Some active
       /\ ((~ In ("m1", "cluster-1") (map mkey Samples.fleet)
            /\ machines' = Samples.fleet ++ [m]
            /\ m_deployment_id m = Some "dep-2"
            /\ m_last_ping_at m = Some 5000)
           \/ (exists old,
                 In old Samples.fleet /\ mkey old = ("m1", "cluster-1")
                 /\ List.length machines' = List.length Samples.fleet
                 /\ m_deployment_id m = m_deployment_id old
                 /\ m_last_ping_at m = Some 5001)).
Proof.
  intros machines'.
  assert (ND : NoDup (map mkey Samples.fleet)) by distinct_ids.
  split; [exact ND |].
  exact (storeMachineInfo_upsert 5000 5001 "m1" "10.0.0.9" "cluster-1"
           (Some "dep-2") Samples.fleet ND).
Defined.

Example storeMachineInfo_keeps_old_deployment :
  storeMachineInfo 5000 5001 "m1" "10.0.0.9" "cluster-1" (Some "dep-2")
    Samples.fleet
  = [{| m_id := "m1"; m_description := None; m_machine_type := None;
        m_last_ping_at := Some 5001; m_ip := Some "10.0.0.9";
        m_cluster_id := "cluster-1"; m_deployment_id := Some "dep-1";
        m_status := Some active |};
     Samples.machine "m1" "cluster-2" None 1000].
Proof. reflexivity. Qed.

(** ** [pollForJob] *)

Lemma pollForJob_from answers :
  forall a,
    (1 <= a <= 11)%nat ->
    (12 <= List.length answers + a)%nat ->
    (forall k, fst (Client.pollForJob answers a) <> Client.Waiting k)
    /\ (a + List.length (snd (Client.pollForJob answers a)) <= 11)%nat
    /\ total (snd (Client.pollForJob answers a))
       <= 500 * (11 - Z.of_nat a) * (10 + Z.of_nat a)
    /\ (Forall retried (firstn (12 - a) answers) ->
        Client.pollForJob answers a
        = (Client.Failed (Client.JOB_TIMEOUT 11),
           map (fun k => 1000 * Z.of_nat k) (seq a (11 - a)))).
Proof.
  induction answers as [| r rest IH]; intros a Ha Hlen; [simpl in Hlen; lia |].
  assert (Room : 0 <= 500 * (11 - Z.of_nat a) * (10 + Z.of_nat a)) by nia.
  assert (First : Forall retried (firstn (12 - a) (r :: rest)) -> retried r).
  { replace (12 - a)%nat with (S (11 - a)) by lia. simpl.
    intros F. now inversion F. }
  assert (Stop : forall e,
            Client.jobPending r || Client.serviceUnavailable r = false ->
            Client.pollForJob (r :: rest) a = (Client.Failed e, []) ->
            (forall k, fst (Client.pollForJob (r :: rest) a) <> Client.Waiting k)
            /\ (a + List.length (snd (Client.pollForJob (r :: rest) a)) <= 11)%nat
            /\ total (snd (Client.pollForJob (r :: rest) a))
               <= 500 * (11 - Z.of_nat a) * (10 + Z.of_nat a)
            /\ (Forall retried (firstn (12 - a) (r :: rest)) ->
                Client.pollForJob (r :: rest) a
                = (Client.Failed (Client.JOB_TIMEOUT 11),
                   map (fun k => 1000 * Z.of_nat k) (seq a (11 - a))))).
  { intros e NR E. rewrite E. simpl.
    split; [discriminate | split; [lia | split; [exact Room |]]].
    intros F. apply First in F. unfold retried in F. congruence. }
  destruct (Client.jobPending r || Client.serviceUnavailable r) eqn:Retry.
  - assert (Step : Client.pollForJob (r :: rest) a
                   = if (10 <? a)%nat
                     then (Client.Failed (Client.JOB_TIMEOUT a), [])
                     else let (end_, slept) := Client.pollForJob rest (S a) in
                          (end_, 1000 * Z.of_nat a :: slept)).
    { destruct r as [[| | |] res ty | code |]; simpl in Retry |- *;
        try discriminate; try reflexivity; now rewrite Retry. }
    rewrite Step. destruct (Nat.ltb_spec 10 a) as [Late | Early].
    + assert (a = 11)%nat by lia. subst a. simpl.
      split; [discriminate | split; [lia | split; [lia | reflexivity]]].
    + destruct (IH (S a) ltac:(lia) ltac:(simpl in Hlen; lia))
        as (NW & Len & Tot & All).
      destruct (Client.pollForJob rest (S a)) as [end_ slept].
      unfold total in *. cbn [fst snd fold_right List.length] in *.
      rewrite Nat2Z.inj_succ in Tot.
      split; [exact NW | split; [lia | split; [nia |]]].
      intros F. replace (12 - a)%nat with (S (11 - a)) in F by lia.
      cbn [firstn] in F. inversion F as [| ? ? _ F']; subst.
      replace (11 - a)%nat with (S (10 - a)) by lia.
      replace (10 - a)%nat with (11 - S a)%nat by lia.
      replace (11 - a)%nat with (12 - S a)%nat in F' by lia.
      specialize (All F'). inversion All; subst. reflexivity.
  - destruct r as [[| | |] res ty | code |]; simpl in Retry;
      try discriminate.
    + (* 200, success: a result, not an error *)
      simpl. split; [discriminate | split; [lia | split; [exact Room |]]].
      intros F. apply First in F. unfold retried in F. simpl in F.
      discriminate.
    + apply (Stop Client.UNEXPECTED_ERROR); [trivial | reflexivity].
    + apply (Stop Client.UNEXPECTED_ERROR); [trivial |].
      simpl. now rewrite Retry.
    + apply (Stop Client.Transport); [trivial | reflexivity].
Qed.

(** X11.  [pollForJob] makes at most 11 requests.  Given 11 answers it ends
    with a result or an error, having slept at most 10 times and at most
    55 seconds in all; when all 11 answers are a pending or running job or
    one of 500, 502, 503, 504 and 429, it ends with JOB_TIMEOUT after
    sleeping 1, 2, ..., 10 seconds. *)
Theorem pollForJob_gives_up :
  forall answers,
    (11 <= List.length answers)%nat ->
    (forall k, fst (Client.pollForJob answers 1) <> Client.Waiting k)
    /\ (List.length (snd (Client.pollForJob answers 1)) <= 10)%nat
    /\ total (snd (Client.pollForJob answers 1)) <= 55000
    /\ (Forall retried (firstn 11 answers) ->
        Client.pollForJob answers 1
        = (Client.Failed (Client.JOB_TIMEOUT 11),
           [1000; 2000; 3000; 4000; 5000; 6000; 7000; 8000; 9000; 10000])).
Proof.
  intros answers Hlen.
  destruct (pollForJob_from answers 1%nat ltac:(lia) ltac:(lia))
    as (NW & Len & Tot & All).
  split; [exact NW | split; [lia | split; [exact Tot | exact All]]].
Qed.

Lemma pollForJob_gives_up_witness :
  let answers :=
    repeat (Client.Ok200 running None None) 6
    ++ repeat (Client.Status 503) 5 in
  (11 <= List.length answers)%nat
  /\ Forall retried (firstn 11 answers)
  /\ Client.pollForJob answers 1
     = (Client.Failed (Client.JOB_TIMEOUT 11),
        [1000; 2000; 3000; 4000; 5000; 6000; 7000; 8000; 9000; 10000]).
Proof.
  intros answers.
  assert (Hlen : (11 <= List.length answers)%nat)
    by (apply Nat.leb_le; reflexivity).
  assert (F : Forall retried (firstn 11 answers))
    by (repeat constructor).
  split; [exact Hlen | split; [exact F |]].
  exact (proj2 (proj2 (proj2 (pollForJob_gives_up answers Hlen))) F).
Defined.

Example pollForJob_408_is_fatal :
  Client.pollForJob [Client.Status 408; Client.Ok200 success (Some "r") None] 1
  = (Client.Failed Client.UNEXPECTED_ERROR, []).
Proof. reflexivity. Qed.

Example pollForJob_resolves_third :
  Client.pollForJob
    [Client.Ok200 pending None None; Client.Status 502;
     Client.Ok200 success (Some "r") (Some rejection)] 1
  = (Client.Result (Some "r") (Some rejection), [1000; 2000]).
Proof. reflexivity. Qed.

(** ** [throttle] *)

Section Throttled.

Context {A R : Type} (fn : A -> option R).

Lemma throttled_app (s : Util.Throttle) (l1 l2 : list (Util.ThrottleEvent A)) :
  Util.throttled fn s (l1 ++ l2)
  = Util.throttled fn s l1
    ++ Util.throttled fn (throttle_after fn s l1) l2.
Proof.
  revert s. induction l1 as [| ev l1 IH]; intros s; simpl; trivial.
  destruct ev as [args | |]; try apply IH.
  destruct (Util.invoke fn s args) as [s' r] eqn:E. simpl.
  now rewrite IH.
Qed.

Lemma ran_app (l1 l2 : list (Util.Called R)) :
  ran (l1 ++ l2) = (ran l1 + ran l2)%nat.
Proof.
  induction l1 as [| r l1 IH]; simpl; trivial.
  destruct r; simpl; now rewrite IH.
Qed.

Lemma cancelled_never_runs (events : list (Util.ThrottleEvent A)) :
  forall s, Util.cancelled s = true -> ran (Util.throttled fn s events) = 0%nat.
Proof.
  induction events as [| ev events IH]; intros s C; simpl; trivial.
  destruct ev as [args | |].
  - unfold Util.invoke. rewrite C. simpl. now apply IH.
  - apply IH. unfold Util.expire. now destruct (Util.timer_pending s).
  - now apply IH.
Qed.

Lemma ran_bound (events : list (Util.ThrottleEvent A)) :
  forall s,
    (ran (Util.throttled fn s events)
     <= (if Util.wait s || Util.cancelled s then 0 else 1) + expiries events)%nat.
Proof.
  induction events as [| ev events IH]; intros s; simpl; [lia |].
  destruct ev as [args | |].
  - unfold Util.invoke.
    destruct (Util.cancelled s) eqn:C; [| destruct (Util.wait s) eqn:W].
    + simpl. specialize (IH s). rewrite C, orb_true_r in IH. simpl. lia.
    + simpl. specialize (IH s). now rewrite W, C in IH.
    + destruct (fn args) as [val |]; simpl.
      * specialize (IH {| Util.wait := true; Util.cancelled := false;
                          Util.timer_pending := true |}).
        simpl in IH. lia.
      * specialize (IH s). rewrite W, C in IH. simpl in IH. exact IH.
  - specialize (IH (Util.expire s)).
    destruct (Util.wait (Util.expire s) || Util.cancelled (Util.expire s));
      destruct (Util.wait s || Util.cancelled s); lia.
  - rewrite cancelled_never_runs by reflexivity. lia.
Qed.

Lemma never_stuck (events : list (Util.ThrottleEvent A)) :
  forall s,
    (Util.wait s = true ->
     Util.timer_pending s = true \/ Util.cancelled s = true) ->
    let s' := throttle_after fn s events in
    Util.wait s' = true ->
    Util.timer_pending s' = true \/ Util.cancelled s' = true.
Proof.
  induction events as [| ev events IH]; intros s Inv; simpl; trivial.
  destruct ev as [args | |]; apply IH.
  - unfold Util.invoke.
    destruct (Util.cancelled s) eqn:C; simpl; [rewrite C; now right |].
    destruct (Util.wait s) eqn:W; simpl.
    + rewrite C, W. exact Inv.
    + destruct (fn args); simpl; [now left |].
      rewrite W. discriminate.
  - unfold Util.expire. destruct (Util.timer_pending s) eqn:T; simpl.
    + discriminate.
    + now rewrite T.
  - simpl. now right.
Qed.

End Throttled.

(** X12.  A throttled function runs to its end at most once more than the
    number of delays that have run out, and never again after a cancel.  A
    throttle that is closed and not cancelled always has its timeout
    pending, so it opens again. *)
Theorem throttle_once_per_delay :
  forall (A R : Type) (fn : A -> option R)
         (events : list (Util.ThrottleEvent A)),
    (ran (Util.throttled fn Util.throttle events) <= 1 + expiries events)%nat
    /\ (forall later,
          ran (Util.throttled fn Util.throttle (events ++ Util.Cancel :: later))
          = ran (Util.throttled fn Util.throttle events))
    /\ (let s := throttle_after fn Util.throttle events in
        Util.wait s = true ->
        Util.timer_pending s = true \/ Util.cancelled s = true).
Proof.
  intros A R fn events. split; [| split].
  - exact (ran_bound fn events Util.throttle).
  - intros later. rewrite throttled_app, ran_app. cbn [Util.throttled].
    rewrite (cancelled_never_runs fn later
               (Util.cancel (throttle_after fn Util.throttle events)))
      by reflexivity.
    lia.
  - apply never_stuck. simpl. discriminate.
Qed.

Example throttle_in_use :
  Util.throttled (fun n : nat => Some (2 * n)%nat) Util.throttle
    [Util.Invoke 1%nat; Util.Invoke 2%nat; Util.Expire; Util.Invoke 3%nat;
     Util.Cancel; Util.Expire; Util.Invoke 4%nat]
  = [Util.Value 2%nat; Util.Undefined; Util.Value 6%nat; Util.Undefined].
Proof. reflexivity. Qed.

(** ** The constructor of the client *)

Lemma first_bad_key_spec keys :
  forall i,
    match Client.first_bad_key keys i with
    | None => Forall (fun key => String.length key = 32%nat) keys
    | Some (len, j) =>
        exists n key,
          j = (i + n)%nat /\ nth_error keys n = Some key
          /\ String.length key = len /\ len <> 32%nat
          /\ Forall (fun key => String.length key = 32%nat) (firstn n keys)
    end.
Proof.
  induction keys as [| key keys IH]; intros i; simpl; [constructor |].
  destruct (Nat.eqb_spec (String.length key) 32) as [E | Ne].
  - specialize (IH (S i)).
    destruct (Client.first_bad_key keys (S i)) as [[len j] |].
    + destruct IH as (n & k & -> & Hn & Hl & Hne & Hall).
      exists (S n), k. cbn [nth_error firstn].
      split; [lia | split; [exact Hn | split; [exact Hl | split; [exact Hne |]]]].
      now constructor.
    + now constructor.
  - exists 0%nat, key. cbn [nth_error firstn].
    split; [lia | split; [reflexivity | split; [reflexivity |]]].
    split; [exact Ne | constructor].
Qed.

Lemma jobPollWaitTime_kept given :
  match constructor_jobPollWaitTime given with
  | Some kept =>
      kept = given
      /\ (given = None \/ exists n, given = Some n /\ (n = 0 \/ 5000 <= n))
  | None => exists n, given = Some n /\ n <> 0 /\ n < 5000
  end.
Proof.
  destruct given as [n |]; unfold constructor_jobPollWaitTime; simpl; [| auto].
  destruct (Z.eqb_spec n 0) as [-> | Hn]; simpl.
  - split; trivial. right. exists 0. auto.
  - destruct (Z.ltb_spec n 5000).
    + exists n. auto.
    + split; trivial. right. exists n. auto.
Qed.

(** X13.  The constructor checks the encryption keys before the poll wait
    time.  It throws for the first key that is not 32 bytes long, naming
    that key's length and index; with all keys 32 bytes long it throws for
    a non-zero [jobPollWaitTime] under 5000; otherwise it keeps the wait
    time as given and turns idle shutdown on (2 cycles) exactly when the
    deployment provider is ["lambda"]. *)
Theorem new_Differential_checks :
  forall env apiSecret options,
    let keys := nullish (chain options Client.o_encryptionKeys) [] in
    let given := chain options Client.o_jobPollWaitTime in
    match Client.new_Differential env apiSecret options with
    | inl (Client.BadKeyLength len i) =>
        exists key,
          nth_error keys i = Some key /\ String.length key = len
          /\ len <> 32%nat
          /\ Forall (fun key => String.length key = 32%nat) (firstn i keys)
    | inl Client.PollWaitTooShort =>
        Forall (fun key => String.length key = 32%nat) keys
        /\ exists n, given = Some n /\ n <> 0 /\ n < 5000
    | inr d =>
        Forall (fun key => String.length key = 32%nat) keys
        /\ (given = None \/ exists n, given = Some n /\ (n = 0 \/ 5000 <= n))
        /\ Client.jobPollWaitTime d = given
        /\ (Client.d_maxIdleCycles d = Some 2%nat
            <-> Client.DIFFERENTIAL_DEPLOYMENT_PROVIDER env = Some "lambda")
        /\ (Client.d_maxIdleCycles d = None
            \/ Client.d_maxIdleCycles d = Some 2%nat)
    end.
Proof.
  intros env apiSecret options keys given. unfold Client.new_Differential.
  fold keys. fold given.
  pose proof (first_bad_key_spec keys 0) as K.
  destruct (Client.first_bad_key keys 0) as [[len i] |].
  - destruct K as (n & key & -> & Hn & Hl & Hne & Hall).
    exists key. auto.
  - pose proof (jobPollWaitTime_kept given) as W.
    destruct (constructor_jobPollWaitTime given) as [kept |].
    + destruct W as [-> W]. simpl.
      split; [exact K | split; [exact W | split; [reflexivity |]]].
      destruct (Client.DIFFERENTIAL_DEPLOYMENT_PROVIDER env) as [provider |].
      * destruct (String.eqb_spec provider "lambda") as [-> | Ne].
        -- split; [tauto | now right].
        -- split; [| now left]. split; [discriminate | congruence].
      * split; [| now left]. split; discriminate.
    + split; [exact K | exact W].
Qed.

Example new_Differential_second_key_short :
  Client.new_Differential
    {| Client.DIFFERENTIAL_DEPLOYMENT_ID := None;
       Client.DIFFERENTIAL_DEPLOYMENT_PROVIDER := Some "lambda";
       Client.random_id := "x7f3k" |}
    "secret"
    (Some {| Client.o_endpoint := None;
             Client.o_encryptionKeys :=
               Some ["abcdefghijklmnopqrstuvwxzy123456"; "short"];
             Client.o_jobPollWaitTime := Some 1 |})
  = inl (Client.BadKeyLength 5 1).
Proof. reflexivity. Qed.

(** ** The polling agent, continued *)

(** X14.  An agent with a free slot asks for at least one job and for at
    most its free slots (half of them, rounded up).  When the dispatcher is
    polled with that limit over a table with unique ids, the jobs it hands
    out all fit: after taking them the agent runs at most [concurrency]
    jobs. *)
Theorem poll_respects_concurrency :
  forall a now p db,
    current a < concurrency a ->
    NoDup (map id db) ->
    nj_limit p = Client.request_limit a ->
    1 <= nj_limit p <= concurrency a - current a
    /\ exists db' jobs a1,
         nextJobs now p db = Some (db', jobs)
         /\ pollForNextJob a (Http 200 (List.length jobs))
            = (a1, Returned (List.length jobs) true)
         /\ current a1 = current a + Z.of_nat (List.length jobs)
         /\ concurrency a1 = concurrency a
         /\ current a1 <= concurrency a1.
Proof.
  intros a now p db Room ND Elim.
  assert (B : 1 <= nj_limit p <= concurrency a - current a).
  { rewrite Elim. unfold Client.request_limit.
    split.
    - apply Z.div_le_lower_bound; lia.
    - apply Z.div_le_upper_bound; lia. }
  split; [exact B |].
  pose proof (nextJobs_returns now p db ltac:(lia)) as H.
  assert (Len : Z.of_nat (List.length
                  (returning (selected_ids p db)
                     (update_claimed now (nj_machineId p)
                        (selected_ids p db) db))) <= nj_limit p).
  { pose proof (nextJobs_claimed_rows _ _ _ _ _ H ND) as E.
    apply (f_equal (@List.length string)) in E.
    unfold claimed_ids in E. rewrite !length_map, length_firstn in E.
    rewrite E. lia. }
  do 3 eexists. split; [exact H |].
  unfold pollForNextJob.
  destruct (Z.leb_spec (concurrency a) (current a)); [lia |].
  cbn [status_of Z.eqb]. split; [reflexivity |].
  cbn [current concurrency set_current]. split; [reflexivity |].
  split; [reflexivity | lia].
Qed.

Lemma poll_respects_concurrency_witness :
  let a := erring None 0 in
  let p := Fixtures.worker 50 in
  current a < concurrency a
  /\ NoDup (map id Fixtures.in_order)
  /\ nj_limit p = Client.request_limit a
  /\ 1 <= nj_limit p <= concurrency a - current a
  /\ exists db' jobs a1,
       nextJobs 5000 p Fixtures.in_order = Some (db', jobs)
       /\ pollForNextJob a (Http 200 (List.length jobs))
          = (a1, Returned (List.length jobs) true)
       /\ current a1 = current a + Z.of_nat (List.length jobs)
       /\ concurrency a1 = concurrency a
       /\ current a1 <= concurrency a1.
Proof.
  intros a p.
  assert (Room : current a < concurrency a) by reflexivity.
  assert (ND : NoDup (map id Fixtures.in_order)) by distinct_ids.
  assert (Elim : nj_limit p = Client.request_limit a) by reflexivity.
  split; [exact Room | split; [exact ND | split; [exact Elim |]]].
  exact (poll_respects_concurrency a 5000 p Fixtures.in_order Room ND Elim).
Defined.

Lemma account_idle maxIdle k :
  account (idling maxIdle k) 0 true
  = match maxIdle with
    | Some (S m) =>
        if (S m <=? S k)%nat then quit (idling maxIdle (S k))
        else idling maxIdle (S k)
    | _ => idling maxIdle (S k)
    end.
Proof.
  unfold account. cbn [Nat.ltb Nat.leb set_errorCount set_idleCycleCount
                       idleCycleCount errorCount idling maxIdleCycles].
  destruct maxIdle as [[| m] |]; reflexivity.
Qed.

Lemma poll_idle maxIdle n :
  forall k,
    match maxIdle with Some (S m) => (k <= m)%nat | _ => True end ->
    poll (idling maxIdle k) (repeat empty_turn n)
    = match maxIdle with
      | Some (S m) =>
          if (k + n <=? m)%nat then Polling (idling maxIdle (k + n))
          else Stopped (set_pollingAborted (quit (idling maxIdle (S m))))
      | _ => Polling (idling maxIdle (k + n))
      end.
Proof.
  induction n as [| n IH]; intros k Hk.
  - rewrite Nat.add_0_r. simpl.
    destruct maxIdle as [[| m] |]; trivial.
    destruct (Nat.leb_spec k m); [reflexivity | lia].
  - assert (Step : poll (idling maxIdle k) (repeat empty_turn (S n))
                   = poll (account (idling maxIdle k) 0 true)
                       (repeat empty_turn n)) by reflexivity.
    rewrite Step, account_idle.
    destruct maxIdle as [[| m] |].
    + rewrite IH by trivial. now rewrite Nat.add_succ_comm.
    + destruct (Nat.leb_spec (S m) (S k)) as [Last | More].
      * assert (k = m) by lia. subst k.
        rewrite poll_aborted by reflexivity.
        destruct (Nat.leb_spec (m + S n) m); [lia | reflexivity].
      * rewrite IH by lia. now rewrite Nat.add_succ_comm.
    + rewrite IH by trivial. now rewrite Nat.add_succ_comm.
Qed.

(** X15.  Idle shutdown.  An agent with [maxIdleCycles] set to a positive
    number polls on while fewer polls in a row than that have come back
    empty and is stopped by the poll that completes the number; an agent
    with [maxIdleCycles] unset or 0 is never stopped by empty polls. *)
Theorem poll_idle_shutdown_after :
  forall maxIdle n,
    poll (new_agent maxIdle) (repeat empty_turn n)
    = match maxIdle with
      | Some (S m) =>
          if (n <=? m)%nat then Polling (idling maxIdle n)
          else Stopped (set_pollingAborted (quit (idling maxIdle (S m))))
      | _ => Polling (idling maxIdle n)
      end.
Proof.
  intros maxIdle n.
  exact (poll_idle maxIdle n 0%nat
           ltac:(destruct maxIdle as [[| m] |]; simpl; trivial; lia)).
Qed.

(** ** The function registry *)

Lemma own_app reg extra key :
  Registry.own (reg ++ extra) key
  = Registry.own reg key || Registry.own extra key.
Proof. unfold Registry.own. apply existsb_app. Qed.

Lemma registered_app reg extra key :
  Registry.registered (reg ++ extra) key
  = Registry.registered reg key || Registry.own extra key.
Proof.
  unfold Registry.registered. rewrite own_app.
  destruct (Registry.own reg key), (Registry.own extra key),
    (mem key Registry.Object_prototype); reflexivity.
Qed.

Lemma service_spec serviceName functions :
  forall reg,
    match Registry.service serviceName functions reg with
    | (reg', None) =>
        reg' = reg ++ map (entry_of serviceName) functions
        /\ NoDup (map fst functions)
        /\ Forall (fun f => fst f <> ""
                            /\ Registry.registered reg (fst f) = false)
                  functions
    | (reg', Some e) =>
        exists done f rest,
          functions = done ++ f :: rest
          /\ reg' = reg ++ map (entry_of serviceName) done
          /\ ((e = Registry.AlreadyRegistered (fst f)
               /\ Registry.registered reg' (fst f) = true)
              \/ (e = Registry.MustHaveName /\ fst f = ""))
    end.
Proof.
  induction functions as [| [key [idem retry]] rest IH]; intros reg; simpl.
  - rewrite app_nil_r. repeat split; constructor.
  - destruct (Registry.registered reg key) eqn:Reg.
    + exists [], (key, (idem, retry)), rest. simpl. rewrite app_nil_r.
      split; [reflexivity | split; [reflexivity |]]. left. auto.
    + unfold Registry.register.
      destruct (String.eqb_spec key "") as [-> | Named].
      * exists [], ("", (idem, retry)), rest. simpl. rewrite app_nil_r.
        split; [reflexivity | split; [reflexivity |]]. right. auto.
      * set (reg1 := reg ++ [(key, {| Registry.name := serviceName;
                                      Registry.idempotent := idem;
                                      Registry.retryConfig := retry |})]).
        specialize (IH reg1).
        destruct (Registry.service serviceName rest reg1) as [reg' [e |]].
        -- destruct IH as (done & f & rest' & -> & -> & Why).
           exists ((key, (idem, retry)) :: done), f, rest'.
           split; [reflexivity |]. split; [| exact Why].
           unfold reg1. now rewrite <- app_assoc.
        -- destruct IH as (-> & ND & All).
           split; [unfold reg1; now rewrite <- app_assoc |].
           rewrite Forall_forall in All. split.
           ++ constructor; trivial. intros Hin. apply in_map_iff in Hin.
              destruct Hin as (f & Ef & Hf). destruct (All f Hf) as [_ NotReg].
              unfold reg1 in NotReg. rewrite registered_app, Ef in NotReg.
              unfold Registry.own in NotReg. simpl in NotReg.
              rewrite String.eqb_refl in NotReg.
              now rewrite orb_true_r in NotReg.
           ++ constructor; [simpl; auto |].
              apply Forall_forall. intros f Hf.
              destruct (All f Hf) as [Nf NotReg]. split; trivial.
              unfold reg1 in NotReg. rewrite registered_app in NotReg.
              now apply orb_false_iff in NotReg.
Qed.

Lemma service_taken serviceName key v rest reg :
  Registry.registered reg key = true ->
  Registry.service serviceName ((key, v) :: rest) reg
  = (reg, Some (Registry.AlreadyRegistered key)).
Proof. intros H. destruct v as [idem retry]. simpl. now rewrite H. Qed.

(** X16.  [service] registers the functions of a definition in order and
    stops at the first name that is empty or already taken, by a function
    registered before or by a property every object inherits.  What it
    registered up to there stays registered: calling [service] again with
    the same definition then fails on the definition's first function. *)
Theorem service_stops_without_rollback :
  forall serviceName functions reg reg' e,
    Registry.service serviceName functions reg = (reg', Some e) ->
    exists done f rest,
      functions = done ++ f :: rest
      /\ reg' = reg ++ map (entry_of serviceName) done
      /\ ((e = Registry.AlreadyRegistered (fst f)
           /\ Registry.registered reg' (fst f) = true)
          \/ (e = Registry.MustHaveName /\ fst f = ""))
      /\ (done <> [] ->
          exists first,
            hd_error functions = Some first
            /\ Registry.service serviceName functions reg'
               = (reg', Some (Registry.AlreadyRegistered (fst first)))).
Proof.
  intros serviceName functions reg reg' e H.
  pose proof (service_spec serviceName functions reg) as S.
  rewrite H in S. destruct S as (done & f & rest & -> & -> & Why).
  exists done, f, rest.
  split; [reflexivity | split; [reflexivity | split; [exact Why |]]].
  intros Some_done. destruct done as [| [key [idem retry]] done];
    [congruence |].
  exists (key, (idem, retry)). split; [reflexivity |].
  apply service_taken. rewrite registered_app. unfold Registry.own.
  cbn [map existsb entry_of fst]. rewrite String.eqb_refl.
  cbn [orb]. apply orb_true_r.
Qed.

Lemma service_stops_without_rollback_witness :
  let functions :=
    [("hello", (false, None)); ("toString", (false, None));
     ("bye", (true, None))] in
  let reg' := [entry_of "greeter" ("hello", (false, None))] in
  Registry.service "greeter" functions []
  = (reg', Some (Registry.AlreadyRegistered "toString"))
  /\ exists done f rest,
       functions = done ++ f :: rest
       /\ reg' = [] ++ map (entry_of "greeter") done
       /\ ((Registry.AlreadyRegistered "toString"
            = Registry.AlreadyRegistered (fst f)
            /\ Registry.registered reg' (fst f) = true)
           \/ (Registry.AlreadyRegistered "toString" = Registry.MustHaveName
               /\ fst f = ""))
       /\ (done <> [] ->
           exists first,
             hd_error functions = Some first
             /\ Registry.service "greeter" functions reg'
                = (reg', Some (Registry.AlreadyRegistered (fst first)))).
Proof.
  intros functions reg'.
  assert (H : Registry.service "greeter" functions []
              = (reg', Some (Registry.AlreadyRegistered "toString")))
    by reflexivity.
  split; [exact H |].
  exact (service_stops_without_rollback "greeter" functions [] reg' _ H).
Defined.

(** *** The order of [Object.entries] *)














Example service_two_services :
  Registry.service "mailer" [("send", (true, Some (3, 60)))]
    (fst (Registry.service "greeter"
            [("hello", (false, None)); ("bye", (false, None))] []))
  = ([entry_of "greeter" ("hello", (false, None));
      entry_of "greeter" ("bye", (false, None));
      entry_of "mailer" ("send", (true, Some (3, 60)))], None).
Proof. reflexivity. Qed.

(** Functions named by array indices are advertised first, by index; [01]
    and [4294967295] are no array indices. *)
Example functions_of_array_indices_first :
  map (fun f => fst (fst f))
      (Registry.functions_of "greeter"
         (fst (Registry.service "greeter"
                 [("hello", (false, None)); ("10", (false, None));
                  ("01", (false, None)); ("2", (false, None));
                  ("4294967295", (false, None)); ("0", (false, None))] [])))
  = ["0"; "2"; "10"; "hello"; "01"; "4294967295"].
Proof. reflexivity. Qed.

(** ** The results poller *)

Lemma filter_filter {A} (f g : A -> bool) (l : list A) :
  filter f (filter g l) = filter (fun x => g x && f x) l.
Proof.
  induction l as [| a l IH]; simpl; trivial.
  destruct (g a); simpl; [destruct (f a) |]; now rewrite IH.
Qed.

Lemma deliveries_app e1 e2 :
  deliveries (e1 ++ e2) = deliveries e1 ++ deliveries e2.
Proof.
  induction e1 as [| e e1 IH]; simpl; trivial.
  destruct e; simpl; now rewrite IH.
Qed.

Lemma deliveries_map {X} (f : X -> string) (g : X -> Poller.Delivery) l :
  deliveries (map (fun x => Poller.Deliver (f x) (g x)) l)
  = map (fun x => (f x, g x)) l.
Proof. induction l as [| x l IH]; simpl; now rewrite ?IH. Qed.

(** The jobs a poller that waits for all its jobs asks about. *)
Lemma unresolved_all p :
  waiting_for_all p ->
  filter (fun w => match Poller.w_result w with
                   | None => true
                   | Some _ => false
                   end) (map snd (Poller.jobs p))
  = map snd (Poller.jobs p)
  /\ map Poller.jobId (map snd (Poller.jobs p)) = held p.
Proof.
  unfold waiting_for_all, held. intros W. rewrite Forall_forall in W. split.
  - apply filter_all. intros w Hw. apply in_map_iff in Hw.
    destruct Hw as (e & <- & He). now rewrite (proj2 (W e He)).
  - rewrite map_map. apply map_ext_in. intros e He. exact (proj1 (W e He)).
Qed.

Lemma lookup_held key l :
  In key (map fst l) -> Poller.lookup key l <> None.
Proof.
  intros Hin. unfold Poller.lookup. apply in_map_iff in Hin.
  destruct Hin as (e & E & He).
  assert (H : In e (filter (fun e0 => String.eqb (fst e0) key) l))
    by (apply filter_In; split; trivial; now apply String.eqb_eq).
  destruct (filter (fun e0 => String.eqb (fst e0) key) l);
    [destruct H | discriminate].
Qed.

Lemma lookup_not_held key l :
  ~ In key (map fst l) -> Poller.lookup key l = None.
Proof.
  intros Hout. unfold Poller.lookup.
  rewrite filter_none; trivial. intros e He.
  destruct (String.eqb_spec (fst e) key) as [E | _]; trivial.
  exfalso. apply Hout. rewrite <- E. now apply in_map.
Qed.

Lemma delete_keys key l x :
  In x (map fst (Poller.delete key l)) <-> In x (map fst l) /\ x <> key.
Proof.
  unfold Poller.delete. rewrite !in_map_iff. split.
  - intros (e & <- & He). apply filter_In in He. destruct He as [He Ne].
    apply negb_true_iff, String.eqb_neq in Ne. split; eauto.
  - intros ((e & <- & He) & Ne). exists e. split; trivial.
    apply filter_In. split; trivial.
    now apply negb_true_iff, String.eqb_neq.
Qed.

(** Settling rows with distinct ids that are all held: each is delivered in
    order and leaves the map. *)
Lemma settle_held outcome rows :
  forall l,
    NoDup (map js_id rows) ->
    incl (map js_id rows) (map fst l) ->
    Poller.settle outcome rows l
    = Some (filter (fun e => negb (mem (fst e) (map js_id rows))) l,
            map (fun job => Poller.Deliver (js_id job) (outcome job)) rows).
Proof.
  induction rows as [| job rows IH]; intros l ND Held; simpl.
  - f_equal. f_equal. symmetry. now apply filter_all.
  - inversion ND as [| ? ? Fresh ND']; subst.
    destruct (Poller.lookup (js_id job) l) eqn:L.
    + rewrite IH; trivial.
      * unfold Poller.delete. rewrite filter_filter. f_equal. f_equal.
        apply filter_ext. intros e. unfold mem. simpl.
        now rewrite negb_orb.
      * intros x Hx. apply delete_keys. split.
        -- apply Held. now right.
        -- intros ->. contradiction.
    + exfalso. apply (lookup_held (js_id job) l); trivial.
      apply Held. now left.
Qed.

(** Settling a row whose id is not held throws. *)
Lemma settle_not_held outcome rows :
  forall l job,
    In job rows -> ~ In (js_id job) (map fst l) ->
    Poller.settle outcome rows l = None.
Proof.
  induction rows as [| r rows IH]; intros l job Hin Hout; [destruct Hin |].
  simpl. destruct (Poller.lookup (js_id r) l) eqn:L; trivial.
  rewrite (IH (Poller.delete (js_id r) l) job); trivial.
  - destruct Hin as [-> | Hin]; trivial.
    rewrite lookup_not_held in L; [discriminate | exact Hout].
  - intros H. apply delete_keys in H. tauto.
Qed.

Lemma settle_shrinks outcome rows :
  forall l l' effects,
    Poller.settle outcome rows l = Some (l', effects) ->
    incl (map fst l') (map fst l).
Proof.
  induction rows as [| r rows IH]; intros l l' effects H; simpl in H.
  - inversion H; subst. apply incl_refl.
  - destruct (Poller.lookup (js_id r) l); [| discriminate].
    destruct (Poller.settle outcome rows (Poller.delete (js_id r) l))
      as [[l1 e1] |] eqn:S; [| discriminate].
    inversion H; subst. intros x Hx. apply (IH _ _ _ S) in Hx.
    apply delete_keys in Hx. tauto.
Qed.

(** X18.  A 200 answer settles exactly the jobs it reports as success or
    failure.  When those rows have distinct ids that the poller holds, the
    poller hands each success its packed result, then each failure a
    REMOTE_EXECUTION_ERROR, drops exactly those jobs, keeps the others in
    place, and resets its error counter. *)
Theorem next_settles_reported :
  forall p body,
    Poller.jobs p <> [] ->
    waiting_for_all p ->
    NoDup (map js_id (settled body)) ->
    incl (map js_id (settled body)) (held p) ->
    Poller.next p (Poller.Batch200 body)
    = Some ({| Poller.jobs :=
                 filter (fun e => negb (mem (fst e)
                                          (map js_id (settled body))))
                        (Poller.jobs p);
               Poller.currentErrorCycle := 0 |},
            Poller.Request (held p)
            :: map (fun job => Poller.Deliver (js_id job)
                                 (Poller.Outcome (js_result job)
                                    (js_resultType job)))
                   (successes body)
            ++ map (fun job => Poller.Deliver (js_id job)
                                 Poller.REMOTE_EXECUTION_ERROR)
                   (failures body)).
Proof.
  intros p body Some_jobs W ND Held.
  destruct (unresolved_all p W) as [U Ids].
  unfold Poller.next. rewrite U, Ids.
  destruct (map snd (Poller.jobs p)) as [| w ws] eqn:M.
  { destruct (Poller.jobs p); [congruence | discriminate]. }
  unfold settled in ND, Held. rewrite map_app in ND, Held.
  fold (successes body). fold (failures body).
  rewrite (settle_held _ (successes body) (Poller.jobs p)).
  - rewrite (settle_held _ (failures body)).
    + rewrite filter_filter. do 3 f_equal.
      apply filter_ext. intros e. unfold settled, mem.
      now rewrite map_app, existsb_app, negb_orb.
    + now apply NoDup_app_remove_l in ND.
    + intros x Hx. apply in_map_iff.
      assert (Hp : In x (held p)) by (apply Held, in_or_app; now right).
      unfold held in Hp. apply in_map_iff in Hp.
      destruct Hp as (e & <- & He). exists e. split; trivial.
      apply filter_In. split; trivial. apply negb_true_iff, mem_false.
      intros Hs. revert Hs Hx. clear -ND.
      induction (map js_id (successes body)) as [| a l IH]; simpl; [tauto |].
      inversion ND as [| ? ? Fresh ND']; subst.
      intros [<- | Hs] Hx.
      * apply Fresh, in_or_app. now right.
      * now apply IH.
  - now apply NoDup_app_remove_r in ND.
  - intros x Hx. apply Held, in_or_app. now left.
Qed.

Lemma next_settles_reported_witness :
  let body := [Samples.row "01B" failure; Samples.row "01C" pending;
               Samples.row "01A" success] in
  Poller.jobs Samples.asked <> []
  /\ waiting_for_all Samples.asked
  /\ NoDup (map js_id (settled body))
  /\ incl (map js_id (settled body)) (held Samples.asked)
  /\ Poller.next Samples.asked (Poller.Batch200 body)
     = Some ({| Poller.jobs := []; Poller.currentErrorCycle := 0 |},
             [Poller.Request ["01A"; "01B"];
              Poller.Deliver "01A"
                (Poller.Outcome (Some "42") (Some resolution));
              Poller.Deliver "01B" Poller.REMOTE_EXECUTION_ERROR]).
Proof.
  intros body.
  assert (J : Poller.jobs Samples.asked <> []) by discriminate.
  assert (W : waiting_for_all Samples.asked)
    by (repeat constructor).
  assert (ND : NoDup (map js_id (settled body))) by distinct_ids.
  assert (Held : incl (map js_id (settled body)) (held Samples.asked))
    by (intros x Hx; simpl in *; tauto).
  split; [exact J | split; [exact W | split; [exact ND | split; [exact Held |]]]].
  exact (next_settles_reported Samples.asked body J W ND Held).
Defined.

(** X19.  A 200 answer that reports as success or failure a job the poller
    does not hold makes [next] throw: the loop of [start] ends there, and
    nothing that is answered later is delivered. *)
Theorem next_throws_on_unknown_job :
  forall p body job later,
    Poller.jobs p <> [] ->
    waiting_for_all p ->
    In job (settled body) ->
    ~ In (js_id job) (held p) ->
    Poller.next p (Poller.Batch200 body) = None
    /\ Poller.run p (Poller.Batch200 body :: later) = None.
Proof.
  intros p body job later Some_jobs W Hjob Hout.
  assert (N : Poller.next p (Poller.Batch200 body) = None).
  { destruct (unresolved_all p W) as [U _].
    unfold Poller.next. rewrite U.
    destruct (map snd (Poller.jobs p)) as [| w ws] eqn:M.
    { destruct (Poller.jobs p); [congruence | discriminate]. }
    fold (successes body). fold (failures body).
    apply in_app_or in Hjob. destruct Hjob as [Hs | Hf].
    - now rewrite (settle_not_held _ (successes body) (Poller.jobs p) job).
    - destruct (Poller.settle _ (successes body) (Poller.jobs p))
        as [[l1 e1] |] eqn:S; trivial.
      rewrite (settle_not_held _ (failures body) l1 job); trivial.
      intros H. apply Hout. exact (settle_shrinks _ _ _ _ _ S _ H). }
  split; [exact N |]. simpl. now rewrite N.
Qed.

Lemma next_throws_on_unknown_job_witness :
  let body := [Samples.row "01A" success; Samples.row "01Z" success] in
  Poller.jobs Samples.asked <> []
  /\ waiting_for_all Samples.asked
  /\ In (Samples.row "01Z" success) (settled body)
  /\ ~ In "01Z" (held Samples.asked)
  /\ Poller.next Samples.asked (Poller.Batch200 body) = None
  /\ Poller.run Samples.asked
       [Poller.Batch200 body; Poller.Batch200 [Samples.row "01B" success]]
     = None.
Proof.
  intros body.
  assert (J : Poller.jobs Samples.asked <> []) by discriminate.
  assert (W : waiting_for_all Samples.asked) by (repeat constructor).
  assert (Hjob : In (Samples.row "01Z" success) (settled body))
    by (simpl; tauto).
  assert (Hout : ~ In (js_id (Samples.row "01Z" success)) (held Samples.asked))
    by (simpl; intuition discriminate).
  split; [exact J | split; [exact W | split; [exact Hjob | split; [exact Hout |]]]].
  exact (next_throws_on_unknown_job Samples.asked body
           (Samples.row "01Z" success)
           [Poller.Batch200 [Samples.row "01B" success]] J W Hjob Hout).
Defined.

Lemma run_idle answers :
  forall p,
    Poller.jobs p = [] ->
    exists effects,
      Poller.run p answers = Some (p, effects) /\ deliveries effects = [].
Proof.
  induction answers as [| r rest IH]; intros p E; simpl.
  - exists []. auto.
  - unfold Poller.next. rewrite E. simpl.
    destruct (IH p E) as (effects & -> & D). eexists. split; [reflexivity |].
    exact D.
Qed.

Lemma fail_all_empties ws :
  forall l,
    incl (map fst l) (map Poller.jobId ws) ->
    fold_left (fun acc w => Poller.delete (Poller.jobId w) acc) ws l = [].
Proof.
  induction ws as [| w ws IH]; intros l Sub; simpl.
  - destruct l as [| e l]; trivial. destruct (Sub (fst e)). now left.
  - apply IH. intros x Hx. apply delete_keys in Hx. destruct Hx as [Hx Ne].
    destruct (Sub x Hx) as [E | Hin]; [congruence | exact Hin].
Qed.

(** A run of 429s and error statuses over a poller that waits for all its
    jobs. *)
Lemma run_unanswered answers :
  forall p,
    Poller.jobs p <> [] ->
    waiting_for_all p ->
    (Poller.currentErrorCycle p <= 50)%nat ->
    Forall unanswered answers ->
    exists p' effects,
      Poller.run p answers = Some (p', effects)
      /\ if (Poller.currentErrorCycle p + error_cycles answers <=? 50)%nat
         then Poller.jobs p' = Poller.jobs p
              /\ Poller.currentErrorCycle p'
                 = (Poller.currentErrorCycle p + error_cycles answers)%nat
              /\ deliveries effects = []
         else Poller.jobs p' = []
              /\ deliveries effects
                 = map (fun i => (i, Poller.TOO_MANY_NETWORK_ERRORS)) (held p).
Proof.
  induction answers as [| r rest IH]; intros p Some_jobs W Low All.
  - exists p, []. split; [reflexivity |]. simpl. rewrite Nat.add_0_r.
    destruct (Nat.leb_spec (Poller.currentErrorCycle p) 50); [auto | lia].
  - inversion All as [| ? ? Hr All']; subst.
    destruct (unresolved_all p W) as [U Ids].
    assert (Ask : map snd (Poller.jobs p) <> [])
      by (destruct (Poller.jobs p); [congruence | discriminate]).
    destruct Hr as [-> | (code & ->)].
    + (* 429: neither counted nor reset *)
      assert (N : Poller.next p Poller.RateLimited
                  = Some (p, [Poller.Request (held p); Poller.Wait 5000])).
      { unfold Poller.next. rewrite U, Ids.
        destruct (map snd (Poller.jobs p)); [congruence | reflexivity]. }
      destruct (IH p Some_jobs W Low All') as (p' & effects & R & Then).
      exists p'. eexists. split.
      * cbn [Poller.run]. rewrite N, R. reflexivity.
      * cbn [error_cycles]. rewrite deliveries_app. cbn [deliveries app].
        exact Then.
    + destruct (Nat.ltb_spec Poller.MAX_ERROR_CYCLES
                  (S (Poller.currentErrorCycle p))) as [Over | Under].
      * (* the 51st error in a row *)
        assert (N : Poller.next p (Poller.OtherStatus code)
                    = Some ({| Poller.jobs := [];
                               Poller.currentErrorCycle :=
                                 S (Poller.currentErrorCycle p) |},
                            Poller.Request (held p) :: Poller.Wait 5000
                            :: map (fun w => Poller.Deliver (Poller.jobId w)
                                               Poller.TOO_MANY_NETWORK_ERRORS)
                                   (map snd (Poller.jobs p)))).
        { unfold Poller.next. rewrite U, Ids.
          destruct (map snd (Poller.jobs p)) as [| w ws] eqn:M;
            [congruence |].
          apply Nat.ltb_lt in Over. rewrite Over.
          unfold Poller.fail_all. rewrite fail_all_empties; trivial.
          rewrite Ids. apply incl_refl. }
        destruct (run_idle rest
                    {| Poller.jobs := [];
                       Poller.currentErrorCycle :=
                         S (Poller.currentErrorCycle p) |} eq_refl)
          as (effects & R & D).
        do 2 eexists. split.
        -- cbn [Poller.run]. rewrite N, R. reflexivity.
        -- unfold Poller.MAX_ERROR_CYCLES in Over. cbn [error_cycles].
           destruct (Nat.leb_spec
                       (Poller.currentErrorCycle p + S (error_cycles rest)) 50);
             [lia |].
           split; [reflexivity |].
           rewrite deliveries_app. cbn [deliveries app].
           rewrite D, app_nil_r.
           rewrite (deliveries_map Poller.jobId
                      (fun _ => Poller.TOO_MANY_NETWORK_ERRORS)).
           rewrite <- Ids, !map_map. reflexivity.
      * assert (N : Poller.next p (Poller.OtherStatus code)
                    = Some ({| Poller.jobs := Poller.jobs p;
                               Poller.currentErrorCycle :=
                                 S (Poller.currentErrorCycle p) |},
                            [Poller.Request (held p); Poller.Wait 5000])).
        { unfold Poller.next. rewrite U, Ids.
          destruct (map snd (Poller.jobs p)); [congruence |].
          apply Nat.ltb_ge in Under. now rewrite Under. }
        unfold Poller.MAX_ERROR_CYCLES in Under.
        destruct (IH {| Poller.jobs := Poller.jobs p;
                        Poller.currentErrorCycle :=
                          S (Poller.currentErrorCycle p) |}
                    Some_jobs W ltac:(simpl; lia) All')
          as (p' & effects & R & Then).
        exists p'. eexists. split.
        -- cbn [Poller.run]. rewrite N, R. reflexivity.
        -- cbn [error_cycles]. rewrite deliveries_app. cbn [deliveries app].
           cbn [Poller.jobs Poller.currentErrorCycle held] in Then.
           rewrite Nat.add_succ_r. exact Then.
Qed.

(** X20.  The poller counts the answers in a row that are an error status:
    a 429 is waited out without being counted, and does not reset the
    count either.  Through 50 counted errors it keeps every job and
    delivers nothing; the 51st fails every job it holds with
    TOO_MANY_NETWORK_ERRORS, once each, and leaves it holding none. *)
Theorem run_too_many_errors :
  forall p answers,
    Poller.jobs p <> [] ->
    waiting_for_all p ->
    Poller.currentErrorCycle p = 0%nat ->
    Forall unanswered answers ->
    exists p' effects,
      Poller.run p answers = Some (p', effects)
      /\ if (error_cycles answers <=? 50)%nat
         then Poller.jobs p' = Poller.jobs p
              /\ Poller.currentErrorCycle p' = error_cycles answers
              /\ deliveries effects = []
         else Poller.jobs p' = []
              /\ deliveries effects
                 = map (fun i => (i, Poller.TOO_MANY_NETWORK_ERRORS)) (held p).
Proof.
  intros p answers Some_jobs W Zero All.
  destruct (run_unanswered answers p Some_jobs W ltac:(lia) All)
    as (p' & effects & R & Then).
  rewrite Zero in Then. exists p', effects. split; [exact R | exact Then].
Qed.

Lemma run_too_many_errors_witness :
  let answers :=
    repeat (Poller.OtherStatus 500) 30 ++ [Poller.RateLimited]
    ++ repeat (Poller.OtherStatus 503) 21 in
  Poller.jobs Samples.asked <> []
  /\ waiting_for_all Samples.asked
  /\ Poller.currentErrorCycle Samples.asked = 0%nat
  /\ Forall unanswered answers
  /\ exists p' effects,
       Poller.run Samples.asked answers = Some (p', effects)
       /\ Poller.jobs p' = []
       /\ deliveries effects
          = [("01A", Poller.TOO_MANY_NETWORK_ERRORS);
             ("01B", Poller.TOO_MANY_NETWORK_ERRORS)].
Proof.
  intros answers.
  assert (J : Poller.jobs Samples.asked <> []) by discriminate.
  assert (W : waiting_for_all Samples.asked) by (repeat constructor).
  assert (Z0 : Poller.currentErrorCycle Samples.asked = 0%nat) by reflexivity.
  assert (All : Forall unanswered answers).
  { unfold answers. apply Forall_app. split; [| apply Forall_app; split].
    - apply Forall_forall. intros r Hr. apply repeat_spec in Hr.
      right. eauto.
    - constructor; [now left | constructor].
    - apply Forall_forall. intros r Hr. apply repeat_spec in Hr.
      right. eauto. }
  split; [exact J | split; [exact W | split; [exact Z0 | split; [exact All |]]]].
  destruct (run_too_many_errors Samples.asked answers J W Z0 All)
    as (p' & effects & R & Then).
  exists p', effects. split; [exact R |].
  exact Then.
Defined.

(** ** Updating a Lambda function *)

Ltac conflict n :=
  destruct (String.eqb_spec n "ResourceConflictException") as [-> | ?].

Ltac retried_sends :=
  let k := fresh "k" in
  let Hk := fresh "Hk" in
  intros k Hk; cbn [List.length] in Hk;
  repeat (destruct k as [| k]; [reflexivity |]); lia.

Ltac settle_send :=
  do 2 eexists;
  split;
  [ cbn;
    repeat match goal with
           | N : _ <> "ResourceConflictException" |- _ =>
               apply String.eqb_neq in N; rewrite N
           end;
    reflexivity
  | split; [reflexivity | split; [retried_sends | cbn; auto] ] ].

(** X23.  A Lambda command is sent at most six times: a send is repeated
    only after a ResourceConflictException, after waits of 1, 2, 3, 4 and
    5 seconds; any other error, and the sixth error whatever its name, is
    thrown.  The response of the first send is returned; when a repeated
    send succeeds the call returns undefined instead of the response. *)
Theorem sendFunctionUpdateCommand_retries :
  forall sends,
    (6 <= List.length sends)%nat ->
    exists out waits,
      Lambda.sendFunctionUpdateCommand sends 1 = Some (out, waits)
      /\ waits = firstn (List.length waits) [1000; 2000; 3000; 4000; 5000]
      /\ (forall k, (k < List.length waits)%nat ->
                    nth_error sends k
                    = Some (Lambda.Raised "ResourceConflictException"))
      /\ match nth_error sends (List.length waits) with
         | Some (Lambda.Sent response) =>
             out = Lambda.Returned
                     match waits with [] => Some response | _ => None end
         | Some (Lambda.Raised name) =>
             out = Lambda.Thrown name
             /\ (name <> "ResourceConflictException"
                 \/ List.length waits = 5%nat)
         | None => False
         end.
Proof.
  intros sends H.
  destruct sends as [| [r1 | n1] sends]; [simpl in H; lia | settle_send |].
  conflict n1; [| settle_send].
  destruct sends as [| [r2 | n2] sends]; [simpl in H; lia | settle_send |].
  conflict n2; [| settle_send].
  destruct sends as [| [r3 | n3] sends]; [simpl in H; lia | settle_send |].
  conflict n3; [| settle_send].
  destruct sends as [| [r4 | n4] sends]; [simpl in H; lia | settle_send |].
  conflict n4; [| settle_send].
  destruct sends as [| [r5 | n5] sends]; [simpl in H; lia | settle_send |].
  conflict n5; [| settle_send].
  destruct sends as [| [r6 | n6] sends]; [simpl in H; lia | settle_send |].
  settle_send.
Qed.

Lemma sendFunctionUpdateCommand_retries_witness :
  let sends :=
    [Lambda.Raised "ResourceConflictException";
     Lambda.Raised "ResourceConflictException";
     Lambda.Sent "done"; Lambda.Sent "x"; Lambda.Sent "x"; Lambda.Sent "x"] in
  (6 <= List.length sends)%nat
  /\ exists out waits,
       Lambda.sendFunctionUpdateCommand sends 1 = Some (out, waits)
       /\ waits = firstn (List.length waits) [1000; 2000; 3000; 4000; 5000]
       /\ (forall k, (k < List.length waits)%nat ->
                     nth_error sends k
                     = Some (Lambda.Raised "ResourceConflictException"))
       /\ match nth_error sends (List.length waits) with
          | Some (Lambda.Sent response) =>
              out = Lambda.Returned
                      match waits with [] => Some response | _ => None end
          | Some (Lambda.Raised name) =>
              out = Lambda.Thrown name
              /\ (name <> "ResourceConflictException"
                  \/ List.length waits = 5%nat)
          | None => False
          end.
Proof.
  intros sends.
  assert (H : (6 <= List.length sends)%nat) by (apply Nat.leb_le; reflexivity).
  split; [exact H |].
  exact (sendFunctionUpdateCommand_retries sends H).
Defined.

(** A command that goes through at the third send: two waits, and no
    response for the caller. *)
Example sendFunctionUpdateCommand_third_send :
  Lambda.sendFunctionUpdateCommand
    [Lambda.Raised "ResourceConflictException";
     Lambda.Raised "ResourceConflictException";
     Lambda.Sent "done"] 1
  = Some (Lambda.Returned None, [1000; 2000]).
Proof. reflexivity. Qed.
